(** * Instascan: lifecycle state machine, capture loop, analyzer and camera

  A shallow embedding of the scanner sources: [Camera] (the camera class),
  [Analyzer], [ActiveScan] and [Scanner] (scanner.js), together with the
  part of the javascript-state-machine library that [Scanner] drives.
  Definitions come first, the theorems about them follow. *)

From Stdlib Require Import Ascii.
From stdpp Require Import gmap strings list fin_maps.

Set Default Proof Using "Type".

(* ================================================================== *)
(** * Camera *)
(* ================================================================== *)

Module Camera.

(** A MediaStreamTrack, as far as the camera class touches it: its kind
    and whether it is still live ([stop()] ends it). *)
Inductive TrackKind := VideoTrack | AudioTrack.

Record MediaStreamTrack := mkTrack { kind : TrackKind; live : bool }.

#[global] Instance TrackKind_eq_dec : EqDecision TrackKind.
Proof. solve_decision. Defined.

(** [track.stop()] *)
Definition track_stop (t : MediaStreamTrack) : MediaStreamTrack :=
  {| kind := kind t; live := false |}.

(** MediaStream objects are shared between the camera and whoever received
    them from [start()], so they live in a store indexed by reference. *)
Abbreviation Streams := (gmap nat (list MediaStreamTrack)).

(** [stream.getVideoTracks()] *)
Definition getVideoTracks (ts : list MediaStreamTrack) : list MediaStreamTrack :=
  filter (λ t, kind t = VideoTrack) ts.

(** The effect on a stream of
    [for (let stream of this._stream.getVideoTracks()) stream.stop()]. *)
Definition stop_video_tracks (ts : list MediaStreamTrack) : list MediaStreamTrack :=
  (λ t, if decide (kind t = VideoTrack) then track_stop t else t) <$> ts.

Record Camera := mkCamera {
  id : string;
  name : option string;
  _stream : option nat
}.

(** [constructor(id, name)] *)
Definition new (i : string) (n : option string) : Camera :=
  {| id := i; name := n; _stream := None |}.

(** [stop()] *)
Definition stop (c : Camera) (h : Streams) : Camera * Streams :=
  match _stream c with
  | None => (c, h)
  | Some r =>
      ({| id := id c; name := name c; _stream := None |},
       alter stop_video_tracks r h)
  end.

(** A JavaScript error object: its [name] (the empty string when absent)
    and its [message]. *)
Record JsError := mkError { ename : string; emessage : string }.

(** What an async method of the class can throw: a [MediaError] built by
    [wrapErrors], or the original error. *)
Inductive Thrown :=
| MediaError (type : string) (inner : JsError)
| Rethrown (e : JsError).

(** How a promise settles. *)
Inductive Settled (A : Type) :=
| Resolved (a : A)
| Rejected (t : Thrown).
Arguments Resolved {A} a.
Arguments Rejected {A} t.

(** [static async wrapErrors(fn)]; [fn]'s outcome is [r], and
    [development] says whether NODE_ENV is "development". *)
Definition wrapErrors {T} (development : bool) (r : JsError + T) : Settled T :=
  match r with
  | inr v => Resolved v
  | inl e =>
      if bool_decide (ename e ≠ "") && negb development
      then Rejected (MediaError (ename e) e)
      else Rejected (Rethrown e)
  end.

(** [async start()]: [gum] is the outcome of
    [navigator.mediaDevices.getUserMedia(constraints)], the tracks of the
    new stream or the error.  The method has no parameter; whatever a
    caller passes is dropped.  On failure the assignment to [_stream] is
    never reached. *)
Definition start (development : bool) (gum : JsError + list MediaStreamTrack)
    (c : Camera) (h : Streams) : Settled nat * Camera * Streams :=
  match wrapErrors development gum with
  | Rejected t => (Rejected t, c, h)
  | Resolved tracks =>
      let r := fresh (dom h) in
      (Resolved r,
       {| id := id c; name := name c; _stream := Some r |},
       <[r := tracks]> h)
  end.

End Camera.

(* ================================================================== *)
(** * Analyzer *)
(* ================================================================== *)

Module Analyzer.

Open Scope Z_scope.

(** The video element as [analyze] reads it: its intrinsic dimensions (0
    until a frame has arrived) and the picture it currently shows. *)
Record Video (Picture : Type) := mkVideo {
  videoWidth : Z;
  videoHeight : Z;
  picture : Picture
}.
Arguments mkVideo {Picture}.
Arguments videoWidth {Picture}.
Arguments videoHeight {Picture}.
Arguments picture {Picture}.

(** The hidden canvas: its size and the last [drawImage] it received
    (picture, left, top, width, height).  Setting [width] or [height]
    clears the bitmap. *)
Record Canvas (Picture : Type) := mkCanvas {
  cwidth : Z;
  cheight : Z;
  drawn : option (Picture * Z * Z * Z * Z)
}.
Arguments mkCanvas {Picture}.
Arguments cwidth {Picture}.
Arguments cheight {Picture}.
Arguments drawn {Picture}.

(** The fields of an [Analyzer] (null is [None]). *)
Record Analyzer (Picture : Type) := mkAnalyzer {
  imageBuffer : option Z;
  sensorLeft : option Z;
  sensorTop : option Z;
  sensorWidth : option Z;
  sensorHeight : option Z;
  canvas : Canvas Picture;
  canvasContext : bool
}.
Arguments mkAnalyzer {Picture}.
Arguments imageBuffer {Picture}.
Arguments sensorLeft {Picture}.
Arguments sensorTop {Picture}.
Arguments sensorWidth {Picture}.
Arguments sensorHeight {Picture}.
Arguments canvas {Picture}.
Arguments canvasContext {Picture}.

(** What [analyze] touches outside the analyzer: the decoder's byte heap
    [ZXing.HEAPU8], the global [window.zxDecodeResult], and (ghost) the
    number of calls made to [ZXing._decode_qr]. *)
Record Runtime := mkRuntime {
  HEAPU8 : gmap Z Z;
  zxDecodeResult : option string;
  decode_calls : nat
}.

(** The canvas created by the constructor (the default canvas size). *)
Definition new_canvas {Picture} : Canvas Picture :=
  {| cwidth := 300; cheight := 150; drawn := None |}.

(** [constructor(video)] *)
Definition new {Picture} : Analyzer Picture :=
  {| imageBuffer := None; sensorLeft := None; sensorTop := None;
     sensorWidth := None; sensorHeight := None;
     canvas := new_canvas; canvasContext := false |}.

(** [data[0], data[4], data[8], ...]: the bytes read by the copy loop
    [for (var i = 0, j = 0; i < data.length; i += 4, j++)]. *)
Fixpoint every_fourth (data : list Z) : list Z :=
  match data with
  | a :: _ :: _ :: _ :: rest => a :: every_fourth rest
  | a :: _ => [a]
  | [] => []
  end.

(** [HEAPU8[base + j] = bytes[j]] for j = 0, 1, ... *)
Fixpoint write_bytes (base : Z) (bytes : list Z) (heap : gmap Z Z) : gmap Z Z :=
  match bytes with
  | [] => heap
  | b :: rest => write_bytes (base + 1) rest (<[base := b]> heap)
  end.

(** The callback registered with [ZXing.Runtime.addFunction]: called with
    [resultIndex] and the decoded characters.  [+=] on an unset global
    concatenates to the text "undefined". *)
Definition decodeCallback (resultIndex : Z) (str : string) (g : option string)
    : option string :=
  let g := if decide (resultIndex = 0) then Some "" else g in
  Some (default "undefined" g +:+ str).

Section Analyze.
Context {Picture : Type}.

(** The decoder ([./zxing], an emscripten build) and the canvas read-back
    are opaque collaborators. *)
(** [ZXing._resize(width, height)]: the address of the image buffer. *)
Variable _resize : Z → Z → Z.
(** [ZXing._decode_qr(cb)] on the current heap: the error code, and the
    calls it makes to [cb] as (resultIndex, characters). *)
Variable _decode_qr : gmap Z Z → Z * list (Z * string).
(** [canvasContext.getImageData(0, 0, w, h).data] of a canvas. *)
Variable getImageData : Canvas Picture → Z → Z → list Z.

(** JavaScript truthiness of a number-or-null field. *)
Definition truthy (o : option Z) : bool :=
  match o with Some n => bool_decide (n ≠ 0) | None => false end.

(** [analyze(callback)].  The result is the new analyzer and runtime, and
    the arguments of the call to [callback], if it is called; that call is
    the last thing [analyze] does. *)
Definition analyze (video : Video Picture) (a : Analyzer Picture) (rt : Runtime)
    : Analyzer Picture * Runtime * option (string * Canvas Picture) :=
  if bool_decide (videoWidth video = 0) then (a, rt, None)
  else if negb (truthy (imageBuffer a)) then
    let vw := videoWidth video in
    let vh := videoHeight video in
    let sw := vw in
    let sh := vh in
    ({| imageBuffer := Some (_resize sw sh);
        sensorLeft := Some ((vw - sw) `div` 2);
        sensorTop := Some ((vh - sh) `div` 2);
        sensorWidth := Some sw;
        sensorHeight := Some sh;
        canvas := {| cwidth := sw; cheight := sh; drawn := None |};
        canvasContext := true |}, rt, None)
  else
    let l := default 0 (sensorLeft a) in
    let t := default 0 (sensorTop a) in
    let w := default 0 (sensorWidth a) in
    let h := default 0 (sensorHeight a) in
    let cv := {| cwidth := cwidth (canvas a); cheight := cheight (canvas a);
                 drawn := Some (picture video, l, t, w, h) |} in
    let a' := {| imageBuffer := imageBuffer a;
                 sensorLeft := sensorLeft a; sensorTop := sensorTop a;
                 sensorWidth := sensorWidth a; sensorHeight := sensorHeight a;
                 canvas := cv; canvasContext := canvasContext a |} in
    let data := getImageData cv w h in
    let heap := write_bytes (default 0 (imageBuffer a)) (every_fourth data) (HEAPU8 rt) in
    let '(err, calls) := _decode_qr heap in
    let g := foldl (λ g c, decodeCallback c.1 c.2 g) (zxDecodeResult rt) calls in
    let rt' := {| HEAPU8 := heap; zxDecodeResult := g;
                  decode_calls := S (decode_calls rt) |} in
    if bool_decide (err ≠ 0) then (a', rt', None)
    else match g with
         | Some result => (a', rt', Some (result, cv))
         | None => (a', rt', None)
         end.

(** The geometry set up from a video of the given dimensions. *)
Definition established (vw vh : Z) : Analyzer Picture :=
  {| imageBuffer := Some (_resize vw vh);
     sensorLeft := Some 0; sensorTop := Some 0;
     sensorWidth := Some vw; sensorHeight := Some vh;
     canvas := {| cwidth := vw; cheight := vh; drawn := None |};
     canvasContext := true |}.

End Analyze.

End Analyzer.

(* ================================================================== *)
(** * ActiveScan *)
(* ================================================================== *)

Module ActiveScan.

Open Scope Z_scope.

(** The fields of an [ActiveScan].  [lastResult] and [refractoryTimeout]
    are not set by the constructor; undefined and null are both [None]
    (the payload compared with [lastResult] is always a string).  The
    [emitter] is represented by the list of emissions of the session, the
    [analyzer] is threaded through [scan]. *)
Record ActiveScan := mkActiveScan {
  active : bool;
  scanPeriod : Z;
  frameCount : Z;
  captureImage : bool;
  refractoryPeriod : Z;
  lastResult : option string;
  refractoryTimeout : option Z
}.

(** The bodies of the two timer callbacks created by [scan]. *)
Inductive Task :=
| ClearLastResult
| EmitScan (result : string) (image : option string).

(** One capture session: the object and the part of the browser's event
    loop that belongs to it.  [frames] counts the callbacks handed to
    [requestAnimationFrame] and not run yet; a timer is kept as the time
    left before it may fire, with its task; [emitted] lists the ['scan']
    emissions, latest first; [attempts] counts the calls of
    [analyzer.analyze] (ghost). *)
Record Session := mkSession {
  self : ActiveScan;
  frames : nat;
  next_timer : Z;
  timers : gmap Z (Z * Task);
  emitted : list (string * option string);
  attempts : nat
}.

Definition with_self (f : ActiveScan → ActiveScan) (s : Session) : Session :=
  {| self := f (self s); frames := frames s; next_timer := next_timer s;
     timers := timers s; emitted := emitted s; attempts := attempts s |}.

Definition set_active (b : bool) (o : ActiveScan) : ActiveScan :=
  {| active := b; scanPeriod := scanPeriod o; frameCount := frameCount o;
     captureImage := captureImage o; refractoryPeriod := refractoryPeriod o;
     lastResult := lastResult o; refractoryTimeout := refractoryTimeout o |}.

Definition set_frameCount (n : Z) (o : ActiveScan) : ActiveScan :=
  {| active := active o; scanPeriod := scanPeriod o; frameCount := n;
     captureImage := captureImage o; refractoryPeriod := refractoryPeriod o;
     lastResult := lastResult o; refractoryTimeout := refractoryTimeout o |}.

Definition set_lastResult (r : option string) (o : ActiveScan) : ActiveScan :=
  {| active := active o; scanPeriod := scanPeriod o; frameCount := frameCount o;
     captureImage := captureImage o; refractoryPeriod := refractoryPeriod o;
     lastResult := r; refractoryTimeout := refractoryTimeout o |}.

Definition set_refractoryTimeout (t : option Z) (o : ActiveScan) : ActiveScan :=
  {| active := active o; scanPeriod := scanPeriod o; frameCount := frameCount o;
     captureImage := captureImage o; refractoryPeriod := refractoryPeriod o;
     lastResult := lastResult o; refractoryTimeout := t |}.

(** [requestAnimationFrame(() => this.scan())] *)
Definition requestAnimationFrame (s : Session) : Session :=
  {| self := self s; frames := S (frames s); next_timer := next_timer s;
     timers := timers s; emitted := emitted s; attempts := attempts s |}.

(** [setTimeout(task, delay)]: the identifier returned, and the session
    with the timer armed. *)
Definition setTimeout (task : Task) (delay : Z) (s : Session) : Z * Session :=
  (next_timer s,
   {| self := self s; frames := frames s; next_timer := next_timer s + 1;
      timers := <[next_timer s := (delay, task)]> (timers s);
      emitted := emitted s; attempts := attempts s |}).

(** [clearTimeout(id)]; clearing undefined does nothing. *)
Definition clearTimeout (id : option Z) (s : Session) : Session :=
  match id with
  | None => s
  | Some i =>
      {| self := self s; frames := frames s; next_timer := next_timer s;
         timers := delete i (timers s);
         emitted := emitted s; attempts := attempts s |}
  end.

(** [constructor(emitter, analyzer, captureImage, scanPeriod, refractoryPeriod)],
    with nothing scheduled or emitted yet. *)
Definition new (ci : bool) (period refractory : Z) : Session :=
  {| self := {| active := false; scanPeriod := period; frameCount := 0;
                captureImage := ci; refractoryPeriod := refractory;
                lastResult := None; refractoryTimeout := None |};
     frames := 0; next_timer := 1; timers := ∅; emitted := []; attempts := 0 |}.

(** [start()] *)
Definition start (s : Session) : Session :=
  requestAnimationFrame (with_self (set_active true) s).

(** [stop()] *)
Definition stop (s : Session) : Session :=
  with_self (set_active false) s.

Definition is_emit (t : Task) : bool :=
  match t with EmitScan _ _ => true | ClearLastResult => false end.

(** The emissions queued with [setTimeout(.., 0)] and not delivered yet,
    and the number of emissions of a session, delivered or queued. *)
Definition queued (s : Session) : gmap Z (Z * Task) :=
  filter (λ kv, is_emit kv.2.2 = true) (timers s).

Definition emissions (s : Session) : nat :=
  (length (emitted s) + size (queued s))%nat.

(** ** Invariants of a session *)

(** After [k] ticks of a running session: it is still running with a frame
    callback pending, and the counter and the attempts add up to [k]. *)
Definition cadence (N k : Z) (s : Session) : Prop :=
  active (self s) = true ∧ (1 ≤ frames s)%nat ∧ scanPeriod (self s) = N
  ∧ 0 ≤ frameCount (self s) < N
  ∧ k = N * Z.of_nat (attempts s) + frameCount (self s).

(** What holds of a stopped session compared with the session [s0] at the
    time of the stop. *)
Definition halted (s0 s : Session) : Prop :=
  active (self s) = false
  ∧ attempts s = attempts s0
  ∧ (frames s ≤ frames s0)%nat
  ∧ emissions s = emissions s0
  ∧ dom (timers s) ⊆ dom (timers s0).

(** Timers of a session: identifiers are below the next one to be handed
    out, the only timer that clears [lastResult] is the one recorded in
    [refractoryTimeout], and that identifier never names an emission. *)
Definition timers_ok (s : Session) : Prop :=
  (∀ id t, timers s !! id = Some t → id < next_timer s)
  ∧ (∀ id d, timers s !! id = Some (d, ClearLastResult) →
             refractoryTimeout (self s) = Some id)
  ∧ (∀ id t, refractoryTimeout (self s) = Some id →
             timers s !! id = Some t → t.2 = ClearLastResult).

(** While the timer armed for [P] has time left and nothing but [P] is
    decoded: [lastResult] is [P], the timer recorded in
    [refractoryTimeout] is pending with [left] to go, and the number of
    emissions is [n]. *)
Definition refractory (P : string) (left : Z) (n : nat) (s : Session) : Prop :=
  timers_ok s
  ∧ lastResult (self s) = Some P
  ∧ (∃ id, refractoryTimeout (self s) = Some id
           ∧ timers s !! id = Some (left, ClearLastResult))
  ∧ emissions s = n.

Section Scan.
(** The analyzer is whatever object was given to the constructor: its
    state [A], what it sees at a scan attempt [V], and its [analyze]
    method, which reports the call it makes to the callback, if any. *)
Context {A V Canvas : Type}.
Variable analyze : V → A → A * option (string * Canvas).
(** [canvas.toDataURL('image/webp', 0.8)] *)
Variable toDataURL : Canvas → string.

(** The callback given to [analyzer.analyze] in [scan]. *)
Definition on_result (result : string) (canvas : Canvas) (s : Session) : Session :=
  if decide (Some result = lastResult (self s)) then s
  else
    let s := clearTimeout (refractoryTimeout (self s)) s in
    let '(id, s) := setTimeout ClearLastResult (refractoryPeriod (self s)) s in
    let s := with_self (set_refractoryTimeout (Some id)) s in
    let image := if captureImage (self s) then Some (toDataURL canvas) else None in
    let s := with_self (set_lastResult (Some result)) s in
    (setTimeout (EmitScan result image) 0 s).2.

Definition count_attempt (s : Session) : Session :=
  {| self := self s; frames := frames s; next_timer := next_timer s;
     timers := timers s; emitted := emitted s; attempts := S (attempts s) |}.

(** [scan()] *)
Definition scan (v : V) (a : A) (s : Session) : A * Session :=
  if negb (active (self s)) then (a, s)
  else
    let s := requestAnimationFrame s in
    let s := with_self (set_frameCount (frameCount (self s) + 1)) s in
    if decide (frameCount (self s) ≠ scanPeriod (self s)) then (a, s)
    else
      let s := with_self (set_frameCount 0) s in
      let '(a', r) := analyze v a in
      let s := count_attempt s in
      match r with
      | None => (a', s)
      | Some (result, canvas) => (a', on_result result canvas s)
      end.

(** Running a timer's task. *)
Definition run_task (t : Task) (s : Session) : Session :=
  match t with
  | ClearLastResult => with_self (set_lastResult None) s
  | EmitScan result image =>
      {| self := self s; frames := frames s; next_timer := next_timer s;
         timers := timers s; emitted := (result, image) :: emitted s;
         attempts := attempts s |}
  end.

(** What can happen to a session: the browser runs one pending frame
    callback (the analyzer then sees [v]), a timer whose delay has elapsed
    fires, time passes, or the owner calls [stop()]. *)
Inductive Input :=
| Frame (v : V)
| Fire (id : Z)
| Advance (dt : Z)
| Stop.

Definition step (i : Input) (st : A * Session) : A * Session :=
  let '(a, s) := st in
  match i with
  | Frame v =>
      match frames s with
      | O => (a, s)
      | S n =>
          scan v a {| self := self s; frames := n; next_timer := next_timer s;
                      timers := timers s; emitted := emitted s;
                      attempts := attempts s |}
      end
  | Fire id =>
      match timers s !! id with
      | Some (wait, task) =>
          if decide (wait ≤ 0) then
            (a, run_task task
                  {| self := self s; frames := frames s;
                     next_timer := next_timer s; timers := delete id (timers s);
                     emitted := emitted s; attempts := attempts s |})
          else (a, s)
      | None => (a, s)
      end
  | Advance dt =>
      (a, {| self := self s; frames := frames s; next_timer := next_timer s;
             timers := (λ t : Z * Task, (t.1 - Z.max 0 dt, t.2)) <$> timers s;
             emitted := emitted s; attempts := attempts s |})
  | Stop => (a, stop s)
  end.

Definition run (inputs : list Input) (st : A * Session) : A * Session :=
  foldl (λ st i, step i st) st inputs.

(** Measures of a list of inputs: the frame callbacks run, the time that
    passes, whether [stop()] is called, and whether every payload the
    analyzer can report in it is [P]. *)
Definition ticks (inputs : list Input) : Z :=
  foldr (λ i n, match i with Frame _ => 1 + n | _ => n end) 0 inputs.

Definition elapsed (inputs : list Input) : Z :=
  foldr (λ i t, match i with Advance dt => Z.max 0 dt + t | _ => t end) 0 inputs.

Definition stop_free (inputs : list Input) : Prop :=
  Forall (λ i, i ≠ Stop) inputs.

Definition decodes_only (P : string) (inputs : list Input) : Prop :=
  Forall (λ i, match i with
               | Frame v => ∀ a r, (analyze v a).2 = Some r → r.1 = P
               | _ => True
               end) inputs.



End Scan.

(** A stand-in analyzer for examples: each tick says what the decoder
    finds; no image is captured. *)
Definition oracle (v : option string) (a : unit) : unit * option (string * unit) :=
  (a, (λ r, (r, tt)) <$> v).

Definition no_image (_ : unit) : string := "".

(** A session with [scanPeriod] 1 and a refractory period of 5 s, after
    the decoder found "P" on the first tick. *)
Definition decoded_P : unit * Session :=
  run oracle no_image [Frame (Some "P")] (tt, start (new false 1 5000)).

(** "P" is delivered at once; "Q" is decoded 10 ms later; 10 ms pass. *)
Definition P_then_Q : list (Input (V:=option string)) :=
  [Fire 2; Advance 10; Frame (Some "Q"); Advance 10].

(** The emission of "P" is delivered 4 ms late; 4997 ms later the
    refractory timer, armed at the decode, fires. *)
Definition late_delivery : list (Input (V:=option string)) :=
  [Advance 4; Fire 2; Advance 4997; Fire 1].

Definition after_P_then_Q : unit * Session :=
  run oracle no_image P_then_Q decoded_P.

Definition after_late_delivery : unit * Session :=
  run oracle no_image late_delivery decoded_P.

End ActiveScan.

(* ================================================================== *)
(** * State and exceptions *)
(* ================================================================== *)

(** Scanner methods and state-machine callbacks read and write the scanner
    and may throw: computations over a world [W] that return a value or
    raise [E], keeping the writes made before the throw. *)
Module Js.

Inductive Outcome (E A : Type) :=
| Returned (a : A)
| Threw (e : E).
Arguments Returned {E A} a.
Arguments Threw {E A} e.

Definition M (E W A : Type) : Type := W → Outcome E A * W.

Definition ret {E W A} (a : A) : M E W A := λ w, (Returned a, w).

Definition bind {E W A B} (m : M E W A) (k : A → M E W B) : M E W B :=
  λ w, match m w with
       | (Returned a, w') => k a w'
       | (Threw e, w') => (Threw e, w')
       end.

Definition throw {E W A} (e : E) : M E W A := λ w, (Threw e, w).
Definition gets {E W A} (f : W → A) : M E W A := λ w, (Returned (f w), w).
Definition modify {E W} (f : W → W) : M E W unit := λ w, (Returned tt, f w).

(** The world a computation leaves behind. *)
Definition exec {E W A} (m : M E W A) (w : W) : W := (m w).2.

Definition threw {E A} (o : Outcome E A) : bool :=
  match o with Threw _ => true | Returned _ => false end.

End Js.

Declare Scope js_scope.
Delimit Scope js_scope with js.
Notation "x <- m ;; k" := (Js.bind m (λ x, k))
  (at level 100, m at next level, right associativity) : js_scope.
Notation "m ;;; k" := (Js.bind m (λ _, k))
  (at level 100, right associativity) : js_scope.

(* ================================================================== *)
(** * The state machine library *)
(* ================================================================== *)

(** Modelled from the spec: [javascript-state-machine] (its
    [StateMachine.create], the event methods it builds, [can],
    [StateMachine.ASYNC] and [transition.cancel]) is a dependency of
    scanner.js whose code is not part of the sources.  The specification
    describes the transitions it runs as vetoable and suspendable, "leave"
    running before "enter", each transition pending, committed or aborted;
    the definitions below follow the library's release 2 interface that
    scanner.js is written against. *)
Module StateMachine.

(** What an event method returns ([NORESULT]: it returns undefined). *)
Inductive Result := SUCCEEDED | NOTRANSITION | CANCELLED | PENDING | NORESULT.

(** What a callback returns, as far as the library looks at it. *)
Inductive Ret := Undefined | JsFalse | ASYNC | Other.

(** What is thrown: the library's two errors (its default [error] handler
    throws), or a JavaScript TypeError. *)
Inductive Thrown (Event : Type) :=
| PENDING_TRANSITION (name : Event)
| INVALID_TRANSITION (name : Event)
| TypeError.
Arguments PENDING_TRANSITION {Event} name.
Arguments INVALID_TRANSITION {Event} name.
Arguments TypeError {Event}.

(** The method [fsm.transition] while a transition is under way: it
    remembers the event, its two states and the event's arguments. *)
Record Pending (State Event Args : Type) := mkPending {
  p_name : Event;
  p_from : State;
  p_to : State;
  p_args : Args
}.
Arguments mkPending {State Event Args}.
Arguments p_name {State Event Args}.
Arguments p_from {State Event Args}.
Arguments p_to {State Event Args}.
Arguments p_args {State Event Args}.

Record Fsm (State Event Args : Type) := mkFsm {
  current : State;
  transition : option (Pending State Event Args)
}.
Arguments mkFsm {State Event Args}.
Arguments current {State Event Args}.
Arguments transition {State Event Args}.

(** The property names under which the library looks callbacks up. *)
Inductive Hook (State Event : Type) :=
| onbefore_ (e : Event)     (* 'onbefore' + name *)
| onafter_ (e : Event)      (* 'onafter' + name *)
| on_event_ (e : Event)     (* 'on' + name *)
| onleave_ (s : State)      (* 'onleave' + from *)
| onenter_ (s : State)      (* 'onenter' + to *)
| on_state_ (s : State)     (* 'on' + to *)
| onbeforeevent | onafterevent | onevent
| onleavestate | onenterstate | onstate | onchangestate.
Arguments onbefore_ {State Event} e.
Arguments onafter_ {State Event} e.
Arguments on_event_ {State Event} e.
Arguments onleave_ {State Event} s.
Arguments onenter_ {State Event} s.
Arguments on_state_ {State Event} s.
Arguments onbeforeevent {State Event}.
Arguments onafterevent {State Event}.
Arguments onevent {State Event}.
Arguments onleavestate {State Event}.
Arguments onenterstate {State Event}.
Arguments onstate {State Event}.
Arguments onchangestate {State Event}.

(** One entry of [cfg.events]. *)
Record EventSpec (State Event : Type) := mkEvent {
  ev_name : Event;
  ev_from : list State;
  ev_to : State
}.
Arguments mkEvent {State Event}.
Arguments ev_name {State Event}.
Arguments ev_from {State Event}.
Arguments ev_to {State Event}.

Section Machine.
Context {State Event Args W : Type}.
Context `{!EqDecision State, !EqDecision Event}.

Local Open Scope js_scope.
Local Abbreviation M := (Js.M (Thrown Event) W).
Local Abbreviation Callback := (Event → State → State → Args → M Ret).

(** The state ['none'] of a machine before its initial event, and the
    name ['startup'] of that event. *)
Variable none : State.
Variable startup : Event.

(** Where the owner keeps the machine. *)
Variable get_fsm : W → Fsm State Event Args.
Variable set_fsm : Fsm State Event Args → W → W.

(** [map[name][from]], filled by [add] for the initial event and for each
    entry of [cfg.events]. *)
Definition add (e : EventSpec State Event) (map : Event → State → option State)
    : Event → State → option State :=
  λ name from,
    if bool_decide (name = ev_name e) && bool_decide (from ∈ ev_from e)
    then Some (ev_to e) else map name from.

Definition build_map (initial : State) (events : list (EventSpec State Event))
    : Event → State → option State :=
  foldl (λ map e, add e map)
        (add (mkEvent startup [none] initial) (λ _ _, None)) events.

Variable map : Event → State → option State.
Variable callbacks : Hook State Event → option Callback.

(** [fsm.can(event)] *)
Definition can (event : Event) (w : W) : bool :=
  negb (bool_decide (is_Some (transition (get_fsm w))))
  && bool_decide (is_Some (map event (current (get_fsm w)))).

(** [doCallback]: an exception of the callback goes to [fsm.error], which
    throws it again. *)
Definition doCallback (h : Hook State Event) (name : Event) (from to : State)
    (args : Args) : M Ret :=
  match callbacks h with
  | Some func => func name from to args
  | None => Js.ret Undefined
  end.

(** [fsm[a] || fsm[b]] *)
Definition first_of (a b : Hook State Event) : Hook State Event :=
  match callbacks a with Some _ => a | None => b end.

Definition is_false (r : Ret) : bool :=
  match r with JsFalse => true | _ => false end.
Definition is_async (r : Ret) : bool :=
  match r with ASYNC => true | _ => false end.

(** [beforeEvent]: the general callback is skipped when the specific one
    returned false. *)
Definition beforeEvent name from to args : M Ret :=
  specific <- doCallback (onbefore_ name) name from to args ;;
  if is_false specific then Js.ret JsFalse
  else
    general <- doCallback onbeforeevent name from to args ;;
    Js.ret (if is_false general then JsFalse else Undefined).

Definition afterEvent name from to args : M unit :=
  doCallback (first_of (onafter_ name) (on_event_ name)) name from to args ;;;
  doCallback (first_of onafterevent onevent) name from to args ;;;
  Js.ret tt.

Definition leaveState name from to args : M Ret :=
  specific <- doCallback (onleave_ from) name from to args ;;
  general <- doCallback onleavestate name from to args ;;
  Js.ret (if is_false specific || is_false general then JsFalse
          else if is_async specific || is_async general then ASYNC
          else Undefined).

Definition enterState name from to args : M unit :=
  doCallback (first_of (onenter_ to) (on_state_ to)) name from to args ;;;
  doCallback (first_of onenterstate onstate) name from to args ;;;
  Js.ret tt.

Definition changeState name from to args : M Ret :=
  doCallback onchangestate name from to args.

Definition set_transition (t : option (Pending State Event Args)) : M unit :=
  Js.modify (λ w, set_fsm (mkFsm (current (get_fsm w)) t) w).

Definition set_current (s : State) : M unit :=
  Js.modify (λ w, set_fsm (mkFsm s (transition (get_fsm w))) w).

(** The body of [fsm.transition()], for the transition [p] it was built
    for. *)
Definition commit (p : Pending State Event Args) : M Result :=
  set_transition None ;;;
  set_current (p_to p) ;;;
  enterState (p_name p) (p_from p) (p_to p) (p_args p) ;;;
  changeState (p_name p) (p_from p) (p_to p) (p_args p) ;;;
  afterEvent (p_name p) (p_from p) (p_to p) (p_args p) ;;;
  Js.ret SUCCEEDED.

(** The body of [fsm.transition.cancel()]. *)
Definition cancel (p : Pending State Event Args) : M unit :=
  set_transition None ;;;
  afterEvent (p_name p) (p_from p) (p_to p) (p_args p).

(** [this._fsm.transition()] and [this._fsm.transition.cancel()] as a
    caller writes them: a TypeError when no transition is under way. *)
Definition call_transition : M Result :=
  t <- Js.gets (λ w, transition (get_fsm w)) ;;
  match t with
  | Some p => commit p
  | None => Js.throw TypeError
  end.

Definition call_transition_cancel : M unit :=
  t <- Js.gets (λ w, transition (get_fsm w)) ;;
  match t with
  | Some p => cancel p
  | None => Js.throw TypeError
  end.

(** The event method made by [buildEvent(name, map[name])]. *)
Definition buildEvent (name : Event) (args : Args) : M Result :=
  from <- Js.gets (λ w, current (get_fsm w)) ;;
  let to := default from (map name from) in
  pending <- Js.gets (λ w, transition (get_fsm w)) ;;
  if bool_decide (is_Some pending) then Js.throw (PENDING_TRANSITION name)
  else
    allowed <- Js.gets (can name) ;;
    if negb allowed then Js.throw (INVALID_TRANSITION name)
    else
      before <- beforeEvent name from to args ;;
      if is_false before then Js.ret CANCELLED
      else if bool_decide (from = to) then
        afterEvent name from to args ;;; Js.ret NOTRANSITION
      else
        set_transition (Some (mkPending name from to args)) ;;;
        leave <- leaveState name from to args ;;
        if is_false leave then
          set_transition None ;;; Js.ret CANCELLED
        else if is_async leave then Js.ret PENDING
        else
          t <- Js.gets (λ w, transition (get_fsm w)) ;;
          match t with
          | Some p => commit p
          | None => Js.ret NORESULT
          end.

End Machine.

End StateMachine.

(* ================================================================== *)
(** * Scanner *)
(* ================================================================== *)

Module Scanner.
Import StateMachine.

Open Scope Z_scope.

(** The states and events of [this._fsm]; ['none'] and ['startup'] are the
    library's own. *)
Inductive State := none | stopped | started | active | inactive.
Inductive Event := startup | start | stop | activate | deactivate.

#[global] Instance State_eq_dec : EqDecision State.
Proof. solve_decision. Defined.
#[global] Instance Event_eq_dec : EqDecision Event.
Proof. solve_decision. Defined.

(** [Visibility.state()] *)
Inductive Visibility := visible | hidden | prerender.

#[global] Instance Visibility_eq_dec : EqDecision Visibility.
Proof. solve_decision. Defined.

(** What the scanner emits itself (the ['scan'] emissions are made by the
    capture session). *)
Inductive Emission (Err : Type) :=
| Active
| Inactive
| Error (err : Err).
Arguments Active {Err}.
Arguments Inactive {Err}.
Arguments Error {Err} err.

(** The camera objects handed to the scanner are used through two methods.
    [camera_start] is [camera.start(callback)]: what the call does to the
    devices, and whether the camera kept the callback, to call it once the
    acquisition is settled.  [camera_stop] is [camera.stop()]. *)
Class CameraDevice (Cam Dev : Type) := {
  camera_start : Cam → Dev → Dev * bool;
  camera_stop : Cam → Dev → Dev
}.

(** The options read by the constructor; an absent option is [None]. *)
Record Options := mkOptions {
  opt_scanPeriod : option Z;
  opt_refractoryPeriod : option Z;
  opt_captureImage : option bool;
  opt_backgroundScan : option bool
}.

(** [x || d] on a number or undefined. *)
Definition or_number (x : option Z) (d : Z) : Z :=
  match x with
  | Some n => if decide (n = 0) then d else n
  | None => d
  end.

Section Scanner.
Context {Cam Dev Err : Type} `{!CameraDevice Cam Dev}.

(** A scanner and what surrounds it.  The first eight fields are the
    scanner's own ([video_src] is [this.video.src]).  Then: the page's
    visibility; the scanner's emissions, latest first; the number of
    callbacks deferred by the visibility handler with [setTimeout(.., 0)]
    and not run yet; the number of callbacks kept by cameras and not
    called yet; the devices; and the sessions the scanner has dropped,
    latest first, which callbacks still pending in the browser refer to. *)
Record World := mkWorld {
  _scan : option ActiveScan.Session;
  _camera : option Cam;
  scanPeriod : Z;
  refractoryPeriod : Z;
  captureImage : bool;
  backgroundScan : bool;
  video_src : string;
  _fsm : Fsm State Event (option Cam);
  visibility : Visibility;
  emitted : list (Emission Err);
  deferred : nat;
  awaiting : nat;
  devices : Dev;
  retired : list ActiveScan.Session
}.

Definition set__scan (x : option ActiveScan.Session) (w : World) : World :=
  {| _scan := x;
     _camera := _camera w;
     scanPeriod := scanPeriod w;
     refractoryPeriod := refractoryPeriod w;
     captureImage := captureImage w;
     backgroundScan := backgroundScan w;
     video_src := video_src w;
     _fsm := _fsm w;
     visibility := visibility w;
     emitted := emitted w;
     deferred := deferred w;
     awaiting := awaiting w;
     devices := devices w;
     retired := retired w |}.

Definition set__camera (x : option Cam) (w : World) : World :=
  {| _scan := _scan w;
     _camera := x;
     scanPeriod := scanPeriod w;
     refractoryPeriod := refractoryPeriod w;
     captureImage := captureImage w;
     backgroundScan := backgroundScan w;
     video_src := video_src w;
     _fsm := _fsm w;
     visibility := visibility w;
     emitted := emitted w;
     deferred := deferred w;
     awaiting := awaiting w;
     devices := devices w;
     retired := retired w |}.

Definition set_video_src (x : string) (w : World) : World :=
  {| _scan := _scan w;
     _camera := _camera w;
     scanPeriod := scanPeriod w;
     refractoryPeriod := refractoryPeriod w;
     captureImage := captureImage w;
     backgroundScan := backgroundScan w;
     video_src := x;
     _fsm := _fsm w;
     visibility := visibility w;
     emitted := emitted w;
     deferred := deferred w;
     awaiting := awaiting w;
     devices := devices w;
     retired := retired w |}.

Definition set__fsm (x : Fsm State Event (option Cam)) (w : World) : World :=
  {| _scan := _scan w;
     _camera := _camera w;
     scanPeriod := scanPeriod w;
     refractoryPeriod := refractoryPeriod w;
     captureImage := captureImage w;
     backgroundScan := backgroundScan w;
     video_src := video_src w;
     _fsm := x;
     visibility := visibility w;
     emitted := emitted w;
     deferred := deferred w;
     awaiting := awaiting w;
     devices := devices w;
     retired := retired w |}.

Definition set_visibility (x : Visibility) (w : World) : World :=
  {| _scan := _scan w;
     _camera := _camera w;
     scanPeriod := scanPeriod w;
     refractoryPeriod := refractoryPeriod w;
     captureImage := captureImage w;
     backgroundScan := backgroundScan w;
     video_src := video_src w;
     _fsm := _fsm w;
     visibility := x;
     emitted := emitted w;
     deferred := deferred w;
     awaiting := awaiting w;
     devices := devices w;
     retired := retired w |}.

Definition set_emitted (x : list (Emission Err)) (w : World) : World :=
  {| _scan := _scan w;
     _camera := _camera w;
     scanPeriod := scanPeriod w;
     refractoryPeriod := refractoryPeriod w;
     captureImage := captureImage w;
     backgroundScan := backgroundScan w;
     video_src := video_src w;
     _fsm := _fsm w;
     visibility := visibility w;
     emitted := x;
     deferred := deferred w;
     awaiting := awaiting w;
     devices := devices w;
     retired := retired w |}.

Definition set_deferred (x : nat) (w : World) : World :=
  {| _scan := _scan w;
     _camera := _camera w;
     scanPeriod := scanPeriod w;
     refractoryPeriod := refractoryPeriod w;
     captureImage := captureImage w;
     backgroundScan := backgroundScan w;
     video_src := video_src w;
     _fsm := _fsm w;
     visibility := visibility w;
     emitted := emitted w;
     deferred := x;
     awaiting := awaiting w;
     devices := devices w;
     retired := retired w |}.

Definition set_awaiting (x : nat) (w : World) : World :=
  {| _scan := _scan w;
     _camera := _camera w;
     scanPeriod := scanPeriod w;
     refractoryPeriod := refractoryPeriod w;
     captureImage := captureImage w;
     backgroundScan := backgroundScan w;
     video_src := video_src w;
     _fsm := _fsm w;
     visibility := visibility w;
     emitted := emitted w;
     deferred := deferred w;
     awaiting := x;
     devices := devices w;
     retired := retired w |}.

Definition set_devices (x : Dev) (w : World) : World :=
  {| _scan := _scan w;
     _camera := _camera w;
     scanPeriod := scanPeriod w;
     refractoryPeriod := refractoryPeriod w;
     captureImage := captureImage w;
     backgroundScan := backgroundScan w;
     video_src := video_src w;
     _fsm := _fsm w;
     visibility := visibility w;
     emitted := emitted w;
     deferred := deferred w;
     awaiting := awaiting w;
     devices := x;
     retired := retired w |}.

Definition set_retired (x : list ActiveScan.Session) (w : World) : World :=
  {| _scan := _scan w;
     _camera := _camera w;
     scanPeriod := scanPeriod w;
     refractoryPeriod := refractoryPeriod w;
     captureImage := captureImage w;
     backgroundScan := backgroundScan w;
     video_src := video_src w;
     _fsm := _fsm w;
     visibility := visibility w;
     emitted := emitted w;
     deferred := deferred w;
     awaiting := awaiting w;
     devices := devices w;
     retired := x |}.

Local Open Scope js_scope.
Local Abbreviation M := (Js.M (Thrown Event) World).

(** [this.emit(...)].  A listener for ['error'] is taken to be attached:
    without one, [emit('error', err)] of an EventEmitter throws [err]
    after the machine has been updated. *)
Definition emit (e : Emission Err) : M unit :=
  Js.modify (λ w, set_emitted (e :: emitted w) w).

(** The [events] of the machine's configuration. *)
Definition events : list (EventSpec State Event) :=
  [ mkEvent start [stopped] started;
    mkEvent stop [started; active; inactive] stopped;
    mkEvent activate [started; inactive] active;
    mkEvent deactivate [started; active] inactive ].

Definition map : Event → State → option State :=
  build_map none startup stopped events.

(** [_enableScan(camera)] *)
Definition _enableScan (camera : option Cam) : M Ret :=
  Js.modify (λ w, set__camera (from_option Some (_camera w) camera) w) ;;;
  cam <- Js.gets _camera ;;
  match cam with
  | None => Js.ret JsFalse
  | Some c =>
      Js.modify (λ w,
        let '(d, kept) := camera_start c (devices w) in
        set_awaiting (if kept then S (awaiting w) else awaiting w)
                     (set_devices d w)) ;;;
      Js.ret ASYNC
  end.

(** [_disableScan()] *)
Definition _disableScan : M unit :=
  Js.modify (set_video_src "") ;;;
  Js.modify (λ w,
    match _scan w with
    | Some s => set__scan None (set_retired (ActiveScan.stop s :: retired w) w)
    | None => w
    end) ;;;
  Js.modify (λ w,
    match _camera w with
    | Some c => set_devices (camera_stop c (devices w)) w
    | None => w
    end).

(** The callbacks of the configuration except [onstarted]. *)
Definition callbacks0 (h : Hook State Event)
    : option (Event → State → State → option Cam → M Ret) :=
  match h with
  | on_state_ active => Some (λ _ _ _ _, emit Active ;;; Js.ret Other)
  | onleave_ active =>
      Some (λ _ _ _ _, _disableScan ;;; emit Inactive ;;; Js.ret Undefined)
  | onleavestate =>
      Some (λ event from to camera,
        if decide (to = active) then
          vis <- Js.gets visibility ;;
          bg <- Js.gets backgroundScan ;;
          if bool_decide (vis ≠ visible) && negb bg then Js.ret JsFalse
          else _enableScan camera
        else Js.ret Undefined)
  | _ => None
  end.

(** [onstarted] calls [this._fsm.activate], an event method of the machine
    that is being configured.  The activate event never looks [onstarted]
    up, so that method is built from the other callbacks first. *)
Definition callbacks (h : Hook State Event)
    : option (Event → State → State → option Cam → M Ret) :=
  match h with
  | on_state_ started =>
      Some (λ event from to camera,
        buildEvent _fsm set__fsm map callbacks0 activate camera ;;;
        Js.ret Other)
  | _ => callbacks0 h
  end.

(** The event methods of [this._fsm] and [this._fsm.can]. *)
Definition fsm (name : Event) (args : option Cam) : M Result :=
  buildEvent _fsm set__fsm map callbacks name args.

Definition fsm_can (name : Event) : M bool :=
  Js.gets (can _fsm map name).

(** [constructor(opts)], in a page whose visibility is [vis] and with the
    devices [dev]: the machine fires its initial event, then the scanner
    emits ['inactive']. *)
Definition new (opts : Options) (vis : Visibility) (dev : Dev) : World :=
  Js.exec (fsm startup None ;;; emit Inactive)
    {| _scan := None; _camera := None;
       scanPeriod := or_number (opt_scanPeriod opts) 1;
       refractoryPeriod := or_number (opt_refractoryPeriod opts) (5 * 1000);
       captureImage := default false (opt_captureImage opts);
       backgroundScan := default false (opt_backgroundScan opts);
       video_src := "";
       _fsm := mkFsm none None;
       visibility := vis; emitted := []; deferred := 0; awaiting := 0;
       devices := dev; retired := [] |}.

(** [start(camera = null)] *)
Definition start_ (camera : option Cam) : M unit :=
  ok <- fsm_can start ;;
  if ok then fsm start camera ;;; Js.ret tt
  else fsm stop None ;;; fsm start camera ;;; Js.ret tt.

(** [stop()] *)
Definition stop_ : M unit :=
  ok <- fsm_can stop ;;
  if ok then fsm stop None ;;; Js.ret tt else Js.ret tt.

(** [set camera(camera)] *)
Definition set_camera (camera : option Cam) : M unit :=
  cur <- Js.gets (λ w, current (_fsm w)) ;;
  if bool_decide (cur = stopped) || bool_decide (cur = inactive) then
    Js.modify (set__camera camera)
  else fsm stop None ;;; fsm start camera ;;; Js.ret tt.

(** The handler given to [Visibility.change]. *)
Definition on_visibility_change (state : Visibility) : M unit :=
  if decide (state = visible) then
    Js.modify (λ w, set_deferred (S (deferred w)) w)
  else
    bg <- Js.gets backgroundScan ;;
    ok <- fsm_can deactivate ;;
    if negb bg && ok then fsm deactivate None ;;; Js.ret tt else Js.ret tt.

(** The callback the visibility handler defers with [setTimeout(.., 0)]. *)
Definition deferred_activate : M unit :=
  ok <- fsm_can activate ;;
  if ok then fsm activate None ;;; Js.ret tt else Js.ret tt.

(** The callback given to [this._camera.start] in [_enableScan]. *)
Definition camera_callback (reply : Err + string) : M unit :=
  match reply with
  | inl err =>
      call_transition_cancel _fsm set__fsm callbacks ;;;
      emit (Error err)
  | inr streamUrl =>
      Js.modify (set_video_src streamUrl) ;;;
      Js.modify (λ w,
        set__scan (Some (ActiveScan.start
          (ActiveScan.new (captureImage w) (scanPeriod w) (refractoryPeriod w)))) w) ;;;
      call_transition _fsm set__fsm callbacks ;;;
      Js.ret tt
  end.

(** What can happen to a scanner: a call of one of its methods, of an
    event method of its machine, a visibility change of the page, the
    browser running a deferred callback, a camera calling a callback it
    kept, or something happening to the devices alone. *)
Inductive Input :=
| CallStart (camera : option Cam)
| CallStop
| SetCamera (camera : option Cam)
| CallFsm (name : Event) (camera : option Cam)
| VisibilityChange (state : Visibility)
| RunDeferred
| CameraReply (reply : Err + string)
| DeviceChange (f : Dev → Dev).

Definition handle (i : Input) : M unit :=
  match i with
  | CallStart camera => start_ camera
  | CallStop => stop_
  | SetCamera camera => set_camera camera
  | CallFsm name camera => fsm name camera ;;; Js.ret tt
  | VisibilityChange state =>
      Js.modify (set_visibility state) ;;; on_visibility_change state
  | RunDeferred =>
      n <- Js.gets deferred ;;
      match n with
      | O => Js.ret tt
      | S n' => Js.modify (set_deferred n') ;;; deferred_activate
      end
  | CameraReply reply =>
      n <- Js.gets awaiting ;;
      match n with
      | O => Js.ret tt
      | S n' => Js.modify (set_awaiting n') ;;; camera_callback reply
      end
  | DeviceChange f => Js.modify (λ w, set_devices (f (devices w)) w)
  end.

(** An exception ends the call that raised it; the scanner keeps what was
    written before. *)
Definition step (w : World) (i : Input) : World := Js.exec (handle i) w.

Definition run (inputs : list Input) (w : World) : World := foldl step w inputs.

(** The ['active'] (true) and ['inactive'] (false) emissions of a scanner
    in the order they were made. *)
Definition lifecycle (e : Emission Err) : option bool :=
  match e with
  | Active => Some true
  | Inactive => Some false
  | Error _ => None
  end.

Definition lifecycle_trace (w : World) : list bool :=
  omap lifecycle (rev (emitted w)).

(** The latest lifecycle emission of a list of emissions, latest first. *)
Fixpoint last_lifecycle (em : list (Emission Err)) : option bool :=
  match em with
  | [] => None
  | e :: em' =>
      match lifecycle e with
      | Some b => Some b
      | None => last_lifecycle em'
      end
  end.

(** Each lifecycle emission differs from the one before it, and the first
    one is ['inactive']. *)
Fixpoint alternating (em : list (Emission Err)) : Prop :=
  match em with
  | [] => True
  | e :: em' =>
      alternating em'
      ∧ match lifecycle e with
        | None => True
        | Some b =>
            match last_lifecycle em' with
            | None => b = false
            | Some b' => b = negb b'
            end
        end
  end.

(** A transition under way is an activation, suspended in the state it
    started from.  The machine has left ['none'], and the latest lifecycle
    emission was ['active'] exactly when the machine is in ['active']. *)
Definition consistent_fields (cur : State)
    (tr : option (Pending State Event (option Cam)))
    (em : list (Emission Err)) : Prop :=
  cur ≠ none
  ∧ match tr with
    | None => True
    | Some p =>
        p_name p = activate ∧ p_to p = active ∧ p_from p = cur
        ∧ (cur = started ∨ cur = inactive)
    end
  ∧ alternating em
  ∧ last_lifecycle em = Some (bool_decide (cur = active)).

Definition consistent (w : World) : Prop :=
  consistent_fields (current (_fsm w)) (transition (_fsm w)) (emitted w).

(** The errors emitted. *)
Definition errors_of (em : list (Emission Err)) : list Err :=
  omap (λ e, match e with Error err => Some err | _ => None end) em.

Definition errors (w : World) : list Err := errors_of (emitted w).

(** No camera holds a callback, the machine is not in ['active'], and no
    ['error'] has been emitted. *)
Definition quiet_fields (aw : nat) (cur : State) (em : list (Emission Err)) : Prop :=
  aw = 0%nat ∧ cur ≠ active ∧ errors_of em = [].

Definition quiet (w : World) : Prop :=
  quiet_fields (awaiting w) (current (_fsm w)) (emitted w).

End Scanner.

Arguments World : clear implicits.
Arguments Input : clear implicits.

(** A sequence that alternates, starting with [next]. *)
Fixpoint alternates (next : bool) (l : list bool) : Prop :=
  match l with
  | [] => True
  | b :: l' => b = next ∧ alternates (negb next) l'
  end.

End Scanner.

(* ================================================================== *)
(** * Cameras *)
(* ================================================================== *)

(** Cameras with the interface scanner.js is written against: [start]
    keeps the callback and calls it later with an error or a stream URL.
    The devices are the log of the calls made, latest first. *)
Module CallbackCamera.

Inductive Call := Start (camera : nat) | Stop (camera : nat).

#[global] Instance device : Scanner.CameraDevice nat (list Call) := {|
  Scanner.camera_start c log := (Start c :: log, true);
  Scanner.camera_stop c log := Stop c :: log
|}.

(** A scanner on a visible page, after [start(camera 7)]: the activation
    waits for the camera. *)
Definition acquiring : Scanner.World nat (list Call) string :=
  Scanner.run [Scanner.CallStart (Some 7%nat)]
    (Scanner.new (Scanner.mkOptions None None None None) Scanner.visible []).

End CallbackCamera.

(** The scanner with the cameras of the [Camera] class.  [start()] has no
    parameter: the callback given by [_enableScan] is dropped, the outcome
    of the acquisition settles the promise [start()] returned, which
    [_enableScan] does not look at. *)
Module Repo.

(** The camera objects (by reference), the streams, the cameras whose
    [start()] awaits [getUserMedia], and how the promises returned by
    [start()] settled, latest first. *)
Record Devices := mkDevices {
  cameras : gmap nat Camera.Camera;
  streams : gmap nat (list Camera.MediaStreamTrack);
  acquiring : list nat;
  settled : list (Camera.Settled nat);
  development : bool
}.

(** [camera.start(callback)] on a [Camera]: the method runs up to its
    [await]. *)
Definition start_call (c : nat) (d : Devices) : Devices * bool :=
  ({| cameras := cameras d; streams := streams d;
      acquiring := acquiring d ++ [c]; settled := settled d;
      development := development d |}, false).

(** [camera.stop()] on a [Camera]. *)
Definition stop_call (c : nat) (d : Devices) : Devices :=
  match cameras d !! c with
  | Some cam =>
      let '(cam', h) := Camera.stop cam (streams d) in
      {| cameras := <[c := cam']> (cameras d); streams := h;
         acquiring := acquiring d; settled := settled d;
         development := development d |}
  | None => d
  end.

#[global] Instance device : Scanner.CameraDevice nat Devices := {|
  Scanner.camera_start := start_call;
  Scanner.camera_stop := stop_call
|}.

(** [getUserMedia] settles for the camera that has waited longest: the
    rest of its [start()] runs. *)
Definition getUserMedia_settles
    (gum : Camera.JsError + list Camera.MediaStreamTrack) (d : Devices) : Devices :=
  match acquiring d with
  | [] => d
  | c :: rest =>
      match cameras d !! c with
      | Some cam =>
          let '(p, cam', h) := Camera.start (development d) gum cam (streams d) in
          {| cameras := <[c := cam']> (cameras d); streams := h;
             acquiring := rest; settled := p :: settled d;
             development := development d |}
      | None => d
      end
  end.

(** A page with one camera, the scanner built with default options. *)
Definition one_camera : Devices :=
  {| cameras := {[ 0%nat := Camera.new "cam0" (Some "Back camera") ]};
     streams := ∅; acquiring := []; settled := []; development := false |}.

Definition scanner : Scanner.World nat Devices Camera.Thrown :=
  Scanner.new (Scanner.mkOptions None None None None) Scanner.visible one_camera.

(** The camera refuses access. *)
Definition denied : Camera.JsError := Camera.mkError "NotAllowedError" "Permission denied".

(** [start(camera 0)], then [getUserMedia] fails. *)
Definition refused : Scanner.World nat Devices Camera.Thrown :=
  Scanner.run
    [Scanner.CallStart (Some 0%nat);
     Scanner.DeviceChange (getUserMedia_settles (inl denied))]
    scanner.

End Repo.

(* ================================================================== *)
(** * Camera names and the static methods of Camera *)
(* ================================================================== *)

(** [cameraName(label)].  A label is a JavaScript string whose code units
    are below 256, one [ascii] each.  The regular expression
    [/\s*\([0-9a-f]+(:[0-9a-f]+)?\)\s*$/] can only match a suffix of the
    label, so it is run from the end of the label backwards; the leftmost
    match takes all the white space before the opening parenthesis. *)
Module CameraName.

(** [\s] on such code units: TAB, LF, VT, FF, CR, SPACE and NBSP. *)
Definition is_space (c : ascii) : bool :=
  bool_decide (nat_of_ascii c ∈ [9; 10; 11; 12; 13; 32; 160]).

(** [[0-9a-f]] *)
Definition is_hex (c : ascii) : bool :=
  let n := nat_of_ascii c in
  (Nat.leb 48 n && Nat.leb n 57) || (Nat.leb 97 n && Nat.leb n 102).

Fixpoint drop_while (p : ascii → bool) (l : list ascii) : list ascii :=
  match l with
  | c :: l' => if p c then drop_while p l' else l
  | [] => []
  end.

Fixpoint take_while (p : ascii → bool) (l : list ascii) : list ascii :=
  match l with
  | c :: l' => if p c then c :: take_while p l' else []
  | [] => []
  end.

(** [[0-9a-f]+] read backwards: what is left before it, if there is at
    least one digit. *)
Definition hex_run (r : list ascii) : option (list ascii) :=
  match take_while is_hex r with
  | [] => None
  | _ => Some (drop_while is_hex r)
  end.

Definition strip_id (r : list ascii) : option (list ascii) :=
  match drop_while is_space r with
  | ")"%char :: r =>
      match hex_run r with
      | Some ("("%char :: r) => Some (drop_while is_space r)
      | Some (":"%char :: r) =>
          match hex_run r with
          | Some ("("%char :: r) => Some (drop_while is_space r)
          | _ => None
          end
      | _ => None
      end
  | _ => None
  end.

Definition clean (label : string) : string :=
  match strip_id (rev (String.list_ascii_of_string label)) with
  | Some r => String.string_of_list_ascii (rev r)
  | None => label
  end.

Definition cameraName (label : string) : option string :=
  if bool_decide (clean label ≠ "") then Some (clean label)
  else if bool_decide (label ≠ "") then Some label
  else None.

End CameraName.

Module CameraStatics.
Import Camera.

(** An entry of [navigator.mediaDevices.enumerateDevices()]. *)
Record MediaDeviceInfo := mkDevice {
  dev_kind : string;
  deviceId : string;
  dev_label : string
}.

(** [static async ensureAccess()]; [gum] is the outcome of
    [getUserMedia({ video: true })]. *)
Definition ensureAccess (development : bool)
    (gum : JsError + list MediaStreamTrack) (h : Streams)
    : Settled unit * Streams :=
  match gum with
  | inr tracks =>
      (wrapErrors development (inr tt),
       <[fresh (dom h) := stop_video_tracks tracks]> h)
  | inl e => (wrapErrors development (inl e), h)
  end.

(** [devices.filter(d => d.kind === 'videoinput')
           .map(d => new Camera(d.deviceId, cameraName(d.label)))] *)
Definition cameras_of (devices : list MediaDeviceInfo) : list Camera :=
  (λ d, Camera.new (deviceId d) (CameraName.cameraName (dev_label d)))
    <$> filter (λ d, dev_kind d = "videoinput") devices.

(** [static async getCameras()]; [enumerate] is the outcome of
    [enumerateDevices()], which is not reached when access fails. *)
Definition getCameras (development : bool)
    (gum : JsError + list MediaStreamTrack)
    (enumerate : JsError + list MediaDeviceInfo) (h : Streams)
    : Settled (list Camera) * Streams :=
  match ensureAccess development gum h with
  | (Rejected t, h') => (Rejected t, h')
  | (Resolved _, h') =>
      match enumerate with
      | inl e => (Rejected (Rethrown e), h')
      | inr devices => (Resolved (cameras_of devices), h')
      end
  end.

(** [static async getBackCamera(options)].  [gum] is the outcome of
    [getUserMedia(constraints)] for the merged constraints: the tracks of
    the stream, each with its [getSettings().deviceId].  The result is
    null or an array of cameras; the stream is kept as it was obtained. *)
Definition getBackCamera
    (gum : JsError + list (MediaStreamTrack * option string))
    (enumerate : JsError + list MediaDeviceInfo) (h : Streams)
    : Settled (option (list Camera)) * Streams :=
  match gum with
  | inl e => (Rejected (Rethrown e), h)
  | inr tracks =>
      let h' := <[fresh (dom h) := tracks.*1]> h in
      match filter (λ t, kind t.1 = VideoTrack) tracks with
      | currentCamera :: _ =>
          match enumerate with
          | inl e => (Rejected (Rethrown e), h')
          | inr devices =>
              (Resolved (Some (
                 (λ d, Camera.new (deviceId d)
                         (CameraName.cameraName (dev_label d)))
                 <$> filter (λ d, Some (deviceId d) = currentCamera.2) devices)),
               h')
          end
      | [] => (Resolved None, h')
      end
  end.

End CameraStatics.

(* ================================================================== *)
(** * Runs of the analyzer, and what sessions and scanners keep *)
(* ================================================================== *)

Module AnalyzerRuns.
Import Analyzer.
Section Runs.
Context {Picture : Type}.
Variable _resize : Z → Z → Z.
Variable _decode_qr : gmap Z Z → Z * list (Z * string).
Variable getImageData : Canvas Picture → Z → Z → list Z.

(** Successive scan attempts, the video being in the given states. *)
Definition attempts (videos : list (Video Picture))
    (st : Analyzer Picture * Runtime) : Analyzer Picture * Runtime :=
  foldl (λ st v, (analyze _resize _decode_qr getImageData v st.1 st.2).1)
        st videos.

End Runs.

(** The capture geometry of an analyzer. *)
Definition geometry {Picture} (a : Analyzer Picture)
    : option Z * option Z * option Z * option Z * option Z * Z * Z * bool :=
  (imageBuffer a, sensorLeft a, sensorTop a, sensorWidth a, sensorHeight a,
   cwidth (canvas a), cheight (canvas a), canvasContext a).

End AnalyzerRuns.

(** Decoding begins on the attempt after the first usable frame: the
    attempt that follows the one on [video] (the analyzer then seeing
    [video'] and the runtime [rt']) draws the picture with the geometry
    set up from [video], copies its pixels to the buffer, runs the
    decoder on that heap, lets the registered callback collect what the
    decoder reports, and hands the result to its own callback with the
    canvas; the geometry stays. *)
Module AnalyzerDecoding.
Import Analyzer.
Section Claims.
Context {Picture : Type}.
Variable _resize : Z → Z → Z.
Variable _decode_qr : gmap Z Z → Z * list (Z * string).
Variable getImageData : Canvas Picture → Z → Z → list Z.

Definition decoding_begins (video video' : Video Picture)
    (a : Analyzer Picture) (rt rt' : Runtime) : Prop :=
  let vw := videoWidth video in
  let vh := videoHeight video in
  let first := analyze _resize _decode_qr getImageData video a rt in
  let second := analyze _resize _decode_qr getImageData video' first.1.1 rt' in
  let cv := {| cwidth := vw; cheight := vh;
               drawn := Some (picture video', 0, 0, vw, vh)%Z |} in
  let heap := write_bytes (_resize vw vh)
                (every_fourth (getImageData cv vw vh)) (HEAPU8 rt') in
  let g := foldl (λ g c, decodeCallback c.1 c.2 g) (zxDecodeResult rt')
             (_decode_qr heap).2 in
  second.1.1
  = {| imageBuffer := Some (_resize vw vh);
       sensorLeft := Some 0%Z; sensorTop := Some 0%Z;
       sensorWidth := Some vw; sensorHeight := Some vh;
       canvas := cv; canvasContext := true |}
  ∧ second.1.2
    = {| HEAPU8 := heap; zxDecodeResult := g;
         decode_calls := S (decode_calls rt') |}
  ∧ second.2
    = if bool_decide ((_decode_qr heap).1 ≠ 0%Z) then None
      else (λ result, (result, cv)) <$> g.

End Claims.
End AnalyzerDecoding.

(** Which frames a session hands to its analyzer, said without the
    session's counter. *)
Module Sampling.
Import ActiveScan.
Section Sampling.
Context {A V Canvas : Type}.
Variable analyze : V → A → A * option (string * Canvas).

(** What the video shows at each frame callback of a list of inputs, in
    order. *)
Definition frames_of (inputs : list (Input (V:=V))) : list V :=
  omap (λ i, match i with Frame v => Some v | _ => None end) inputs.

(** Every N-th element of a list: the N-th, the 2N-th, and so on. *)
Definition every_nth (N : Z) (l : list V) : list V :=
  (filter (λ iv, (Z.of_nat iv.1 + 1) `mod` N = 0)%Z (imap pair l)).*2.

(** The analyzer after [analyze] has been called on each of [vs] in
    turn. *)
Definition analyzed (a : A) (vs : list V) : A :=
  foldl (λ a v, (analyze v a).1) a vs.

End Sampling.

(** An analyzer that records what it is shown and finds nothing. *)
Definition recorder (v : string) (log : list string)
    : list string * option (string * unit) :=
  (log ++ [v], None).

End Sampling.

Module SessionInvariants.
Import ActiveScan.

(** A running session has exactly one frame callback pending, a stopped
    one at most one. *)
Definition one_frame (s : Session) : Prop :=
  if active (self s) then frames s = 1%nat else (frames s ≤ 1)%nat.

(** A session whose counter can never reach its period has attempted,
    scheduled and emitted nothing. *)
Definition never_due (s : Session) : Prop :=
  (scanPeriod (self s) ≤ 0 ≤ frameCount (self s))%Z
  ∧ attempts s = 0%nat ∧ timers s = ∅ ∧ emitted s = [].

Section Reported.
Context {A V Canvas : Type}.
Variable analyze : V → A → A * option (string * Canvas).
Variable toDataURL : Canvas → string.

(** An emission whose payload the analyzer reports on some attempt, and
    whose image is the data URL of the canvas of that report when
    [captureImage] is set, and null when it is not. *)
Definition reported (ci : bool) (e : string * option string) : Prop :=
  ∃ v a a' canvas,
    analyze v a = (a', Some (e.1, canvas))
    ∧ e.2 = if ci then Some (toDataURL canvas) else None.

(** All emissions of a session, delivered or queued, are such. *)
Definition emissions_reported (s : Session) : Prop :=
  Forall (reported (captureImage (self s))) (emitted s)
  ∧ map_Forall (λ _ t, match t.2 with
                       | EmitScan result image =>
                           reported (captureImage (self s)) (result, image)
                       | ClearLastResult => True
                       end) (timers s).

End Reported.

End SessionInvariants.

Module ScannerInvariants.
Import StateMachine Scanner.

(** A session that runs with the given settings: its flag is set, its
    settings are the given ones, and one frame callback is pending. *)
Definition running (ci : bool) (sp rp : Z) (s : ActiveScan.Session) : Prop :=
  ActiveScan.active (ActiveScan.self s) = true
  ∧ ActiveScan.captureImage (ActiveScan.self s) = ci
  ∧ ActiveScan.scanPeriod (ActiveScan.self s) = sp
  ∧ ActiveScan.refractoryPeriod (ActiveScan.self s) = rp
  ∧ ActiveScan.frames s = 1%nat.

Section Invariants.
Context {Cam Dev Err : Type}.

(** The scanner holds a session exactly in ['active'], and that session
    runs with the scanner's own settings; at most one camera callback is
    outstanding, and only while a transition is under way; the video has
    a source only in ['active']; the sessions dropped are stopped. *)
Definition owned_fields (sc : option ActiveScan.Session) (cur : State)
    (tr : option (Pending State Event (option Cam))) (aw : nat) (vs : string)
    (re : list ActiveScan.Session) (ci : bool) (sp rp : Z) : Prop :=
  match sc with
  | Some s => cur = active ∧ running ci sp rp s
  | None => cur ≠ active
  end
  ∧ match tr with None => aw = 0%nat | Some _ => (aw ≤ 1)%nat end
  ∧ (cur ≠ active → vs = "")
  ∧ Forall (λ s, ActiveScan.active (ActiveScan.self s) = false) re.

Definition owned (w : World Cam Dev Err) : Prop :=
  owned_fields (_scan w) (current (_fsm w)) (transition (_fsm w))
    (awaiting w) (video_src w) (retired w)
    (captureImage w) (scanPeriod w) (refractoryPeriod w).

End Invariants.
End ScannerInvariants.

(** The scanner together with its capture sessions.  The sessions are
    objects of their own: once started, the browser runs their frame
    callbacks and timers between the calls made to the scanner, for the
    session the scanner holds and for those it has dropped alike.  All
    of them share the scanner's one analyzer. *)
Module ScannerSessions.
Import StateMachine Scanner.
Section Sessions.
Context {Cam Dev Err A V Canvas : Type} `{!CameraDevice Cam Dev}.
Variable analyze : V → A → A * option (string * Canvas).
Variable toDataURL : Canvas → string.

(** What the browser does to a session: it runs its pending frame
    callback, fires one of its timers, or lets time pass.  ([stop()] is
    called by the scanner only, in [_disableScan].) *)
Inductive Tick :=
| FrameTick (v : V)
| FireTick (id : Z)
| AdvanceTick (dt : Z).

Definition tick_input (t : Tick) : ActiveScan.Input (V:=V) :=
  match t with
  | FrameTick v => ActiveScan.Frame v
  | FireTick id => ActiveScan.Fire id
  | AdvanceTick dt => ActiveScan.Advance dt
  end.

(** What can happen: something happens to the scanner, to the session it
    holds, or to the [n]-th of the sessions it has dropped. *)
Inductive Input :=
| OnScanner (i : Scanner.Input Cam Dev Err)
| OnHeld (t : Tick)
| OnDropped (n : nat) (t : Tick).

Definition step (st : A * World Cam Dev Err) (i : Input)
    : A * World Cam Dev Err :=
  match i with
  | OnScanner i => (st.1, Scanner.step st.2 i)
  | OnHeld t =>
      match _scan st.2 with
      | Some s =>
          let r := ActiveScan.step analyze toDataURL (tick_input t) (st.1, s) in
          (r.1, set__scan (Some r.2) st.2)
      | None => st
      end
  | OnDropped n t =>
      match retired st.2 !! n with
      | Some s =>
          let r := ActiveScan.step analyze toDataURL (tick_input t) (st.1, s) in
          (r.1, set_retired (<[n := r.2]> (retired st.2)) st.2)
      | None => st
      end
  end.

Definition run (inputs : list Input) (st : A * World Cam Dev Err)
    : A * World Cam Dev Err :=
  foldl step st inputs.

End Sessions.
End ScannerSessions.

(** Which camera is on, read from the log of the calls the scanner made
    to its cameras. *)
Module Streaming.
Import StateMachine Scanner CallbackCamera.

Local Abbreviation World := (Scanner.World nat (list Call) string).
Local Abbreviation Input := (Scanner.Input nat (list Call) string).


(** The camera setter is not used while an activation from ['inactive']
    waits for its camera, and the log is written by the scanner alone. *)
Definition allowed (w : World) (i : Input) : Prop :=
  match i with
  | SetCamera _ =>
      ¬ (current (_fsm w) = inactive ∧ transition (_fsm w) ≠ None)
  | DeviceChange _ => False
  | _ => True
  end.








End Streaming.

(* ================================================================== *)
(** * Theorems *)
(* ================================================================== *)

Module CameraFacts.
Import Camera.

Lemma stop_video_tracks_idem ts :
  stop_video_tracks (stop_video_tracks ts) = stop_video_tracks ts.
Proof.
  unfold stop_video_tracks. rewrite <- list_fmap_compose.
  apply list_fmap_ext. intros _ t _. simpl.
  destruct (decide (kind t = VideoTrack)) as [Hk|Hk]; simpl.
  - rewrite decide_True by done. done.
  - rewrite decide_False by done. done.
Qed.

Lemma stop_video_tracks_ended ts :
  Forall (λ t, live t = false) (getVideoTracks (stop_video_tracks ts)).
Proof.
  unfold getVideoTracks, stop_video_tracks.
  induction ts as [|t ts IH]; simpl; [constructor|].
  destruct (decide (kind t = VideoTrack)) as [Hk|Hk].
  - rewrite filter_cons_True by done. constructor; done.
  - rewrite filter_cons_False by done. done.
Qed.

Lemma stop_video_tracks_lookup ts (i : nat) :
  stop_video_tracks ts !! i
  = (λ t, if decide (kind t = VideoTrack)
          then {| kind := kind t; live := false |} else t) <$> ts !! i.
Proof. unfold stop_video_tracks. by rewrite list_lookup_fmap. Qed.

(** C9.  [Camera.stop()] is idempotent: a second call changes neither the
    camera nor the streams.  Without a stream the call changes nothing;
    with one, the reference is cleared and no other stream is touched;
    the held stream keeps all its tracks, in order: each video track is
    ended, with its kind unchanged, and every other track is exactly as
    it was. *)
Theorem stop_idempotent (c : Camera) (h : Streams) :
  stop (stop c h).1 (stop c h).2 = stop c h
  ∧ match _stream c with
    | None => stop c h = (c, h)
    | Some r =>
        _stream (stop c h).1 = None
        ∧ id (stop c h).1 = id c ∧ name (stop c h).1 = name c
        ∧ (stop c h).2 !! r = stop_video_tracks <$> h !! r
        ∧ (∀ ts, (stop c h).2 !! r = Some ts →
                 Forall (λ t, live t = false) (getVideoTracks ts))
        ∧ (∀ r', r' ≠ r → (stop c h).2 !! r' = h !! r')
        ∧ (h !! r = None → (stop c h).2 !! r = None)
        ∧ (∀ ts, h !! r = Some ts →
             ∃ ts', (stop c h).2 !! r = Some ts'
                    ∧ length ts' = length ts
                    ∧ ∀ (i : nat) t, ts !! i = Some t →
                        ts' !! i
                        = Some (match kind t with
                                | VideoTrack =>
                                    {| kind := VideoTrack; live := false |}
                                | AudioTrack => t
                                end))
    end.
Proof.
  unfold stop. destruct (_stream c) as [r|] eqn:Hs; simpl.
  - split; [done|]. split_and!; try done.
    + by rewrite lookup_alter_eq.
    + intros ts. rewrite lookup_alter_eq.
      destruct (h !! r) as [ts0|]; simpl; [|done].
      intros [= <-]. apply stop_video_tracks_ended.
    + intros r' Hne. by rewrite lookup_alter_ne.
    + intros Hn. by rewrite lookup_alter_eq, Hn.
    + intros ts Hts. exists (stop_video_tracks ts). split_and!.
      * by rewrite lookup_alter_eq, Hts.
      * unfold stop_video_tracks. by rewrite length_fmap.
      * intros i t Hi. rewrite stop_video_tracks_lookup, Hi. simpl.
        destruct t as [[] l]; done.
  - by rewrite Hs.
Qed.

End CameraFacts.

Module AnalyzerFacts.
Import Analyzer.
Open Scope Z_scope.

Section Facts.
Context {Picture : Type}.
Variable _resize : Z → Z → Z.
Variable _decode_qr : gmap Z Z → Z * list (Z * string).
Variable getImageData : Canvas Picture → Z → Z → list Z.

Local Abbreviation analyze := (analyze _resize _decode_qr getImageData).
Local Abbreviation established := (established _resize).

(** Without a frame ([videoWidth] is 0) an attempt does nothing. *)
Lemma analyze_no_frame video a rt :
  videoWidth video = 0 → analyze video a rt = (a, rt, None).
Proof.
  intros Hw. unfold Analyzer.analyze. by rewrite bool_decide_eq_true_2.
Qed.

Lemma analyze_first video a rt :
  videoWidth video ≠ 0 → imageBuffer a = None →
  analyze video a rt
  = (established (videoWidth video) (videoHeight video), rt, None).
Proof.
  intros Hw Hb. unfold Analyzer.analyze, established.
  rewrite bool_decide_eq_false_2 by done. rewrite Hb. simpl.
  by rewrite !Z.sub_diag.
Qed.

(** C10.  With a frame available and no image buffer yet, [analyze] sets
    the capture geometry from the video's dimensions and returns: the
    callback is not called, nothing is drawn on the canvas, and the
    decoder's heap, result and call count are unchanged.  What the next
    attempt does depends on the address [ZXing._resize] returned:
    - a real address: with a frame, the attempt draws the video's current
      picture with that geometry, copies the pixels to the buffer, runs
      the decoder on them once and reports what it found, and leaves the
      geometry as it was established;
    - the null address: with a frame, the attempt sets the geometry up
      again and decodes nothing;
    - without a frame the attempt does nothing. *)
Theorem first_usable_frame_sets_geometry_only
    (video video' : Video Picture) (a : Analyzer Picture) (rt rt' : Runtime) :
  videoWidth video ≠ 0 → imageBuffer a = None →
  let vw := videoWidth video in
  let vh := videoHeight video in
  let first := analyze video a rt in
  let second := analyze video' first.1.1 rt' in
  first = (established vw vh, rt, None)
  ∧ drawn (canvas first.1.1) = None
  ∧ (videoWidth video' ≠ 0 → _resize vw vh ≠ 0 →
     AnalyzerDecoding.decoding_begins _resize _decode_qr getImageData
       video video' a rt rt')
  ∧ (videoWidth video' ≠ 0 → _resize vw vh = 0 →
     second = (established (videoWidth video') (videoHeight video'), rt', None))
  ∧ (videoWidth video' = 0 → second = (first.1.1, rt', None)).
Proof.
  intros Hw Hb vw vh first second.
  assert (Hfirst : first = (established vw vh, rt, None))
    by (by apply analyze_first).
  split; [done|]. split; [by rewrite Hfirst|]. split_and!.
  - intros Hw' Hr. unfold AnalyzerDecoding.decoding_begins.
    fold vw vh first. rewrite Hfirst. simpl.
    unfold Analyzer.analyze. rewrite bool_decide_eq_false_2 by done.
    simpl. rewrite bool_decide_eq_true_2 by done. simpl.
    destruct (_decode_qr _) as [err calls] eqn:Hd. simpl.
    set (g := foldl _ _ calls).
    destruct (bool_decide (err ≠ 0)) eqn:He; simpl; [done|].
    by destruct g.
  - intros Hw' Hr. subst second. rewrite Hfirst. simpl.
    unfold Analyzer.analyze, established.
    rewrite bool_decide_eq_false_2 by done. simpl. fold vw vh. rewrite Hr.
    simpl. by rewrite !Z.sub_diag.
  - intros Hw'. subst second. by apply analyze_no_frame.
Qed.

End Facts.

(** An instance: a 2x1 video and a decoder that reports the text QR in
    two parts; the second attempt hands QR and the canvas to the
    callback. *)
Lemma first_usable_frame_sets_geometry_only_witness :
  analyze (λ _ _, 64) (λ _, (0, [(0, "Q"); (1, "R")]))
    (λ _ _ _, [10; 11; 12; 13; 20; 21; 22; 23]) (mkVideo 2 1 tt) new
    (mkRuntime ∅ None 0)
  = (established (λ _ _, 64) 2 1, mkRuntime ∅ None 0, None)
  ∧ (analyze (λ _ _, 64) (λ _, (0, [(0, "Q"); (1, "R")]))
       (λ _ _ _, [10; 11; 12; 13; 20; 21; 22; 23]) (mkVideo 2 1 tt)
       (established (λ _ _, 64) 2 1) (mkRuntime ∅ None 0)).2
    = Some ("QR", {| cwidth := 2; cheight := 1;
                     drawn := Some (tt, 0, 0, 2, 1) |}).
Proof.
  pose proof (first_usable_frame_sets_geometry_only
    (λ _ _, 64) (λ _, (0, [(0, "Q"); (1, "R")]))
    (λ _ _ _, [10; 11; 12; 13; 20; 21; 22; 23])
    (mkVideo 2 1 tt) (mkVideo 2 1 tt)
    new (mkRuntime ∅ None 0) (mkRuntime ∅ None 0)
    ltac:(simpl; lia) eq_refl) as (H1 & _ & H3 & _).
  split; [exact H1|].
  exact (proj2 (proj2 (H3 ltac:(simpl; lia) ltac:(simpl; lia)))).
Defined.

(** C10 as stated fails when [ZXing._resize] returns the null address:
    the attempt after the first usable frame does not decode (the
    decoder here would report QR), it sets the geometry up again and
    leaves the runtime untouched, and so does every later attempt. *)
Lemma null_address_defers_decoding :
  ¬ AnalyzerDecoding.decoding_begins (Picture:=unit) (λ _ _, 0)
      (λ _, (0, [(0, "QR")])) (λ _ _ _, [10; 11; 12; 13])
      (mkVideo 1 1 tt) (mkVideo 1 1 tt) new
      (mkRuntime ∅ None 0) (mkRuntime ∅ None 0)
  ∧ analyze (Picture:=unit) (λ _ _, 0) (λ _, (0, [(0, "QR")]))
      (λ _ _ _, [10; 11; 12; 13]) (mkVideo 1 1 tt)
      (analyze (λ _ _, 0) (λ _, (0, [(0, "QR")])) (λ _ _ _, [10; 11; 12; 13])
         (mkVideo 1 1 tt) new (mkRuntime ∅ None 0)).1.1
      (mkRuntime ∅ None 0)
    = (established (λ _ _, 0) 1 1, mkRuntime ∅ None 0, None).
Proof.
  split; [|reflexivity].
  intros (_ & H & _). vm_compute in H. discriminate H.
Qed.

End AnalyzerFacts.

Module ActiveScanFacts.
Import ActiveScan.
Open Scope Z_scope.

Section Facts.
Context {A V Canvas : Type}.
Variable analyze : V → A → A * option (string * Canvas).
Variable toDataURL : Canvas → string.

Local Abbreviation on_result := (ActiveScan.on_result toDataURL).
Local Abbreviation scan := (ActiveScan.scan analyze toDataURL).
Local Abbreviation step := (ActiveScan.step analyze toDataURL).
Local Abbreviation run := (ActiveScan.run analyze toDataURL).

Lemma run_cons i inputs st : run (i :: inputs) st = run inputs (step i st).
Proof. done. Qed.

Lemma run_app xs ys st : run (xs ++ ys) st = run ys (run xs st).
Proof. unfold ActiveScan.run. by rewrite foldl_app. Qed.

(** The callback leaves the loop's bookkeeping alone. *)
Lemma on_result_keeps result cv s :
  active (self (on_result result cv s)) = active (self s)
  ∧ scanPeriod (self (on_result result cv s)) = scanPeriod (self s)
  ∧ frameCount (self (on_result result cv s)) = frameCount (self s)
  ∧ frames (on_result result cv s) = frames s
  ∧ attempts (on_result result cv s) = attempts s
  ∧ emitted (on_result result cv s) = emitted s.
Proof.
  unfold ActiveScan.on_result.
  destruct (decide (Some result = lastResult (self s))); [done|].
  destruct (refractoryTimeout (self s)); done.
Qed.

(** ** Cadence *)

Lemma cadence_tick N k v a s :
  cadence N k s → cadence N (k + 1) (step (Frame v) (a, s)).2.
Proof.
  intros (Hact & Hfr & HN & Hfc & Hk). simpl.
  destruct (frames s) as [|n] eqn:Hn; [lia|].
  unfold ActiveScan.scan. simpl. rewrite Hact. simpl.
  destruct (decide (frameCount (self s) + 1 ≠ scanPeriod (self s))) as [Hne|Heq]; simpl.
  - unfold cadence. simpl. split_and!; try done; lia.
  - assert (frameCount (self s) + 1 = N) as HfN
      by (destruct (decide (frameCount (self s) + 1 = scanPeriod (self s))); [lia|done]).
    destruct (analyze v a) as [a' [[result cv]|]]; simpl.
    + destruct (on_result_keeps result cv
        (count_attempt (with_self (set_frameCount 0)
           (with_self (set_frameCount (frameCount (self s) + 1))
              (requestAnimationFrame
                 {| self := self s; frames := n; next_timer := next_timer s;
                    timers := timers s; emitted := emitted s;
                    attempts := attempts s |})))))
        as (E1 & E2 & E3 & E4 & E5 & _).
      unfold cadence. rewrite E1, E2, E3, E4, E5. simpl.
      split_and!; try done; lia.
    + unfold cadence. simpl. split_and!; try done; lia.
Qed.

Lemma cadence_other N k i a s :
  cadence N k s → i ≠ Stop → (∀ v, i ≠ Frame v) → cadence N k (step i (a, s)).2.
Proof.
  intros HJ Hs Hf. destruct i as [v|id|dt|]; simpl.
  - by destruct (Hf v).
  - destruct (timers s !! id) as [[wait task]|]; [|done].
    destruct (decide (wait ≤ 0)); [|done]. simpl.
    by destruct task.
  - done.
  - done.
Qed.

Lemma cadence_run N inputs : ∀ k a s,
  cadence N k s → stop_free inputs →
  cadence N (k + ticks inputs) (run inputs (a, s)).2.
Proof.
  induction inputs as [|i inputs IH]; intros k a s HJ Hfree.
  - unfold ticks. simpl. by rewrite Z.add_0_r.
  - apply Forall_cons in Hfree as [Hi Hfree]. rewrite run_cons.
    destruct (step i (a, s)) as [a1 s1] eqn:Hstep.
    destruct i as [v|id|dt|].
    + pose proof (cadence_tick N k v a s HJ) as H1. rewrite Hstep in H1.
      specialize (IH (k + 1) a1 s1 H1 Hfree).
      replace (k + ticks (Frame v :: inputs)) with (k + 1 + ticks inputs); [done|].
      unfold ticks. simpl. lia.
    + pose proof (cadence_other N k (Fire id) a s HJ) as H1. rewrite Hstep in H1.
      specialize (IH k a1 s1 (H1 ltac:(done) ltac:(done)) Hfree).
      done.
    + pose proof (cadence_other N k (Advance dt) a s HJ) as H1. rewrite Hstep in H1.
      specialize (IH k a1 s1 (H1 ltac:(done) ltac:(done)) Hfree).
      done.
    + done.
Qed.

Lemma cadence_start ci N rp : 0 < N → cadence N 0 (start (new ci N rp)).
Proof. intros HN. unfold cadence. simpl. split_and!; try done; lia. Qed.

(** ** The frames the analyzer is shown *)

Lemma every_nth_snoc N (l : list V) v :
  Sampling.every_nth N (l ++ [v])
  = Sampling.every_nth N l
    ++ (if decide ((Z.of_nat (length l) + 1) `mod` N = 0) then [v] else []).
Proof.
  unfold Sampling.every_nth. rewrite imap_app, filter_app, fmap_app.
  f_equal. simpl. rewrite Nat.add_0_r, filter_cons, filter_nil. simpl.
  by destruct (decide _).
Qed.

Lemma ticks_frames_of (inputs : list (Input (V:=V))) :
  ticks inputs = Z.of_nat (length (Sampling.frames_of inputs)).
Proof.
  induction inputs as [|[] inputs IH]; simpl; try done.
  rewrite IH. lia.
Qed.

Lemma due_tick N k att fc :
  0 < N → 0 ≤ fc < N → k = N * att + fc →
  (k + 1) `mod` N = 0 ↔ fc + 1 = N.
Proof.
  intros HN Hfc ->. split.
  - intros Hm. destruct (decide (fc + 1 = N)) as [|Hne]; [done|].
    rewrite <- (Z.mod_unique_pos (N * att + fc + 1) N att (fc + 1)) in Hm; lia.
  - intros Hfc1.
    symmetry. apply (Z.mod_unique_pos (N * att + fc + 1) N (att + 1) 0); lia.
Qed.

Lemma step_analyzer N k i a s :
  cadence N k s → i ≠ Stop →
  (step i (a, s)).1
  = match i with
    | Frame v => if decide (frameCount (self s) + 1 = N)
                 then (analyze v a).1 else a
    | _ => a
    end.
Proof.
  intros (Hact & Hfr & HNs & Hfc & Hk) Hi.
  destruct s as [[ac sp fc ci rp lr rt] fr nt tm em at_]. simpl in *.
  subst ac sp. destruct i as [v|id|dt|]; simpl; try done.
  - destruct fr as [|fr]; [lia|]. unfold ActiveScan.scan. simpl.
    destruct (decide (fc + 1 ≠ N)) as [Hne|He].
    + by rewrite decide_False.
    + rewrite decide_True by (by destruct (decide (fc + 1 = N))).
      by destruct (analyze v a) as [a' [[r cv]|]].
  - destruct (tm !! id) as [[w t]|]; [|done]. by destruct (decide _).
Qed.

Lemma analyzer_run N (inputs : list (Input (V:=V))) : ∀ a0 s0,
  0 < N → cadence N 0 s0 → stop_free inputs →
  (run inputs (a0, s0)).1
  = Sampling.analyzed analyze a0
      (Sampling.every_nth N (Sampling.frames_of inputs)).
Proof.
  induction inputs as [|i pre IH] using rev_ind; intros a0 s0 HN Hc Hfree;
    [done|].
  apply Forall_app in Hfree as [Hpre Hi]. apply Forall_inv in Hi.
  rewrite run_app. specialize (IH a0 s0 HN Hc Hpre).
  pose proof (cadence_run N pre 0 a0 s0 Hc Hpre) as Hk.
  destruct (run pre (a0, s0)) as [a s]. simpl in IH, Hk.
  change (run [i] (a, s)) with (step i (a, s)).
  rewrite (step_analyzer N _ i a s Hk Hi).
  unfold Sampling.frames_of. rewrite omap_app.
  fold (Sampling.frames_of pre).
  destruct i as [v|id|dt|]; simpl; rewrite ?app_nil_r; try done.
  rewrite every_nth_snoc. unfold Sampling.analyzed. rewrite foldl_app.
  fold (Sampling.analyzed analyze a0
          (Sampling.every_nth N (Sampling.frames_of pre))).
  rewrite <- IH. destruct Hk as (_ & _ & _ & Hfc & Hk).
  rewrite Z.add_0_l, ticks_frames_of in Hk.
  pose proof (due_tick N _ _ _ HN Hfc Hk) as Hdue.
  destruct (decide (frameCount (self s) + 1 = N)) as [He|Hne].
  - rewrite decide_True by (by apply Hdue). done.
  - rewrite decide_False by (by rewrite Hdue). done.
Qed.

(** C5.  With a positive [scanPeriod] N, a session that was started and is
    not stopped has called [analyzer.analyze] on every N-th frame and on
    no other, whatever else happened in between (timers, time passing,
    what the analyzer found): the analyzer is in the state those calls
    leave it in, in order, and their number is (ticks div N); the counter
    is (ticks mod N); and the next tick calls the analyzer, on what the
    video shows then, just when it completes a group of N. *)
Theorem one_attempt_per_period (ci : bool) (N rp : Z) (a0 : A)
    (inputs : list (Input (V:=V))) (v : V) :
  0 < N → stop_free inputs →
  let st := run inputs (a0, start (new ci N rp)) in
  Z.of_nat (attempts st.2) = ticks inputs `div` N
  ∧ frameCount (self st.2) = ticks inputs `mod` N
  ∧ attempts (step (Frame v) st).2
    = (if decide ((ticks inputs + 1) `mod` N = 0)
       then S (attempts st.2) else attempts st.2)
  ∧ st.1 = Sampling.analyzed analyze a0
             (Sampling.every_nth N (Sampling.frames_of inputs))
  ∧ Z.of_nat (length (Sampling.every_nth N (Sampling.frames_of inputs)))
    = ticks inputs `div` N
  ∧ (step (Frame v) st).1
    = if decide ((ticks inputs + 1) `mod` N = 0)
      then (analyze v st.1).1 else st.1.
Proof.
  intros HN Hfree st.
  pose proof (cadence_run N inputs 0 a0 _ (cadence_start ci N rp HN) Hfree) as HJ.
  pose proof (analyzer_run N inputs a0 _ HN (cadence_start ci N rp HN) Hfree)
    as Han.
  fold st in HJ, Han. rewrite Z.add_0_l in HJ.
  destruct st as [a s] eqn:Hst. simpl in HJ, Han |- *.
  pose proof (cadence_tick N _ v a s HJ) as HJ'.
  pose proof (step_analyzer N _ (Frame v) a s HJ ltac:(done)) as Hstep.
  destruct HJ as (Hact & Hfr & HNs & Hfc & Hk).
  destruct HJ' as (_ & _ & _ & Hfc' & Hk').
  assert (Hdiv : ticks inputs `div` N = Z.of_nat (attempts s)).
  { symmetry. apply (Z.div_unique_pos _ _ _ (frameCount (self s))); lia. }
  assert (Hmod : ticks inputs `mod` N = frameCount (self s)).
  { symmetry. apply (Z.mod_unique_pos _ _ (Z.of_nat (attempts s))); lia. }
  pose proof (due_tick N _ _ _ HN Hfc Hk) as Hdue.
  split; [done|]. split; [done|].
  set (s' := (step (Frame v) (a, s)).2) in *.
  assert (Hmod' : (ticks inputs + 1) `mod` N = frameCount (self s')).
  { symmetry. apply (Z.mod_unique_pos _ _ (Z.of_nat (attempts s'))); lia. }
  split_and!.
  - rewrite Hmod'.
    assert (Hd : Z.of_nat (attempts s') = Z.of_nat (attempts s)
                 ∨ Z.of_nat (attempts s') = Z.of_nat (attempts s) + 1) by nia.
    destruct (decide (frameCount (self s') = 0)) as [H0|H0];
      destruct Hd as [Hd|Hd]; rewrite Hd in Hk';
      first [ change (attempts s' = S (attempts s))
            | change (attempts s' = attempts s) ]; nia.
  - done.
  - clear -HN. rewrite ticks_frames_of.
    generalize (Sampling.frames_of inputs). intros l.
    induction l as [|x l IH] using rev_ind; [done|].
    rewrite every_nth_snoc, !length_app. simpl.
    destruct (decide _) as [He|Hne]; simpl.
    + rewrite Nat2Z.inj_add, IH. simpl.
      replace (Z.of_nat (length l + 1)) with (Z.of_nat (length l) + 1) in * by lia.
      pose proof (Z.div_mod (Z.of_nat (length l)) N ltac:(lia)) as Hd.
      pose proof (Z.mod_pos_bound (Z.of_nat (length l)) N HN) as Hb.
      assert (Z.of_nat (length l) `mod` N + 1 = N) as Hfull.
      { apply (due_tick N (Z.of_nat (length l))
                 (Z.of_nat (length l) `div` N)); [done|done|lia|done]. }
      apply (Z.div_unique_pos _ _ _ 0); lia.
    + rewrite Nat.add_0_r, IH.
      replace (Z.of_nat (length l + 1)) with (Z.of_nat (length l) + 1) by lia.
      pose proof (Z.div_mod (Z.of_nat (length l)) N ltac:(lia)) as Hd.
      pose proof (Z.mod_pos_bound (Z.of_nat (length l)) N HN) as Hb.
      assert (Z.of_nat (length l) `mod` N + 1 ≠ N) as Hpart.
      { intros Hf. apply Hne.
        apply (due_tick N (Z.of_nat (length l))
                 (Z.of_nat (length l) `div` N) _ HN Hb); [lia|done]. }
      apply (Z.div_unique_pos _ _ _ (Z.of_nat (length l) `mod` N + 1)); lia.
  - change ((step (Frame v) (a, s)).1
            = if decide ((ticks inputs + 1) `mod` N = 0)
              then (analyze v a).1 else a).
    rewrite Hstep.
    destruct (decide (frameCount (self s) + 1 = N)) as [He|Hne].
    + rewrite decide_True by (by apply Hdue). done.
    + rewrite decide_False by (by rewrite Hdue). done.
Qed.

(** ** Emissions, delivered or queued *)

Lemma on_result_same result cv s :
  lastResult (self s) = Some result → on_result result cv s = s.
Proof.
  intros H. unfold ActiveScan.on_result. by rewrite decide_True.
Qed.

Lemma scan_inactive v a s :
  active (self s) = false → scan v a s = (a, s).
Proof. intros H. unfold ActiveScan.scan. by rewrite H. Qed.

Lemma queued_lookup s id d t :
  queued s !! id = Some (d, t) ↔ timers s !! id = Some (d, t) ∧ is_emit t = true.
Proof. unfold queued. by rewrite map_lookup_filter_Some. Qed.

(** Firing a timer, time passing and [stop()] neither add nor lose an
    emission: a delivered one was queued. *)
Lemma step_emissions i a s :
  (∀ v, i ≠ Frame v) → emissions (step i (a, s)).2 = emissions s.
Proof.
  intros Hf. destruct i as [v|id|dt|]; simpl.
  - by destruct (Hf v).
  - destruct (timers s !! id) as [[wait task]|] eqn:Hid; [|done].
    destruct (decide (wait ≤ 0)); [|done].
    destruct task as [|result image]; unfold emissions, queued; simpl.
    + rewrite map_filter_delete, map_size_delete_None; [done|].
      apply map_lookup_filter_None. right. intros x Hx. simpl.
      rewrite Hid in Hx. by injection Hx as <-.
    + rewrite map_filter_delete.
      assert (Hq : filter (λ kv : Z * (Z * Task), is_emit kv.2.2 = true) (timers s)
                   !! id = Some (wait, EmitScan result image))
        by (by apply map_lookup_filter_Some).
      rewrite map_size_delete_Some by (by eexists).
      assert (size (filter (λ kv : Z * (Z * Task), is_emit kv.2.2 = true)
                      (timers s)) ≠ 0%nat).
      { intros H0. apply map_size_empty_inv in H0. rewrite H0 in Hq.
        by rewrite lookup_empty in Hq. }
      lia.
  - unfold emissions, queued. simpl.
    rewrite map_filter_fmap, map_size_fmap. done.
  - done.
Qed.

(** ** After [stop()] *)

Lemma halted_step s0 i a s :
  halted s0 s → (step i (a, s)).1 = a ∧ halted s0 (step i (a, s)).2.
Proof.
  intros (Hact & Hatt & Hfr & Hem & Hdom).
  destruct i as [v|id|dt|].
  - simpl. destruct (frames s) as [|n] eqn:Hn.
    + split; [done|]. unfold halted. simpl. rewrite Hn.
      split_and!; try done; lia.
    + rewrite scan_inactive by done. simpl. split; [done|].
      unfold halted, emissions, queued in *. simpl. split_and!; try done. lia.
  - pose proof (step_emissions (Fire id) a s ltac:(done)) as He.
    simpl in *. destruct (timers s !! id) as [[wait task]|] eqn:Hid; [|done].
    destruct (decide (wait ≤ 0)); [|done]. simpl in He |- *. split; [done|].
    unfold halted. rewrite He.
    destruct task; simpl; split_and!; try done;
      rewrite dom_delete; set_solver.
  - pose proof (step_emissions (Advance dt) a s ltac:(done)) as He.
    simpl in *. split; [done|]. unfold halted. rewrite He. simpl.
    split_and!; try done. by rewrite dom_fmap.
  - simpl. split; [done|]. by unfold halted.
Qed.



(** ** The refractory timer *)

Lemma timers_ok_start ci N rp : timers_ok (start (new ci N rp)).
Proof. unfold timers_ok. simpl. split_and!; intros *; by rewrite ?lookup_empty. Qed.

(** The timers left by the callback when the payload is a new one. *)
Lemma on_result_new result cv s :
  lastResult (self s) ≠ Some result →
  let n := next_timer s in
  let image := if captureImage (self s) then Some (toDataURL cv) else None in
  let old := match refractoryTimeout (self s) with
             | Some i => delete i (timers s) | None => timers s end in
  timers (on_result result cv s)
  = <[n + 1 := (0, EmitScan result image)]>
      (<[n := (refractoryPeriod (self s), ClearLastResult)]> old)
  ∧ next_timer (on_result result cv s) = n + 2
  ∧ lastResult (self (on_result result cv s)) = Some result
  ∧ refractoryTimeout (self (on_result result cv s)) = Some n
  ∧ refractoryPeriod (self (on_result result cv s)) = refractoryPeriod (self s)
  ∧ captureImage (self (on_result result cv s)) = captureImage (self s).
Proof.
  intros Hne n image old. unfold ActiveScan.on_result.
  rewrite decide_False by congruence.
  subst old. destruct (refractoryTimeout (self s)); simpl;
    split_and!; try done; lia.
Qed.

Lemma timers_ok_on_result result cv s :
  timers_ok s → timers_ok (on_result result cv s).
Proof.
  intros (W1 & W2 & W3).
  destruct (decide (lastResult (self s) = Some result)) as [He|Hne].
  { by rewrite on_result_same. }
  destruct (on_result_new result cv s Hne) as (Ht & Hn & _ & Hr & _).
  assert (Hold : ∀ id t,
    match refractoryTimeout (self s) with
    | Some i => delete i (timers s) | None => timers s end !! id = Some t →
    timers s !! id = Some t ∧ refractoryTimeout (self s) ≠ Some id).
  { intros id t. destruct (refractoryTimeout (self s)) as [i|].
    - rewrite lookup_delete_Some. intros [? ?]. split; [done|congruence].
    - done. }
  unfold timers_ok. rewrite Ht, Hn, Hr. split_and!.
  - intros id t. rewrite !lookup_insert_Some.
    intros [[<- _]|[_ [[<- _]|[_ H]]]]; try lia.
    apply Hold in H as [H _]. apply W1 in H. lia.
  - intros id d. rewrite !lookup_insert_Some.
    intros [[_ ?]|[_ [[<- _]|[_ H]]]]; try done.
    apply Hold in H as [H Hn']. apply W2 in H. done.
  - intros id t [= <-]. rewrite lookup_insert_ne by lia.
    rewrite lookup_insert_eq. by intros [= <-].
Qed.

Lemma timers_ok_step i a s : timers_ok s → timers_ok (step i (a, s)).2.
Proof.
  intros Hok. destruct i as [v|id|dt|]; simpl.
  - destruct (frames s) as [|n]; [done|].
    unfold ActiveScan.scan. simpl.
    destruct (active (self s)); [|done]. simpl.
    destruct (decide _); [done|].
    destruct (analyze v a) as [a' [[result cv]|]]; simpl; [|done].
    by apply timers_ok_on_result.
  - destruct (timers s !! id) as [[wait task]|] eqn:Hid; [|done].
    destruct (decide (wait ≤ 0)); [|done]. simpl.
    destruct Hok as (W1 & W2 & W3).
    destruct task; unfold timers_ok; simpl; split_and!; intros *;
      rewrite ?lookup_delete_Some; naive_solver.
  - destruct Hok as (W1 & W2 & W3). unfold timers_ok. simpl.
    split_and!; intros *; rewrite ?lookup_fmap_Some.
    + intros (t0 & _ & H). by eapply W1.
    + intros ([d0 t0] & [= _ ->] & H). by eapply W2.
    + intros Hr ([d0 t0] & <- & H). simpl. by apply (W3 _ _ Hr H).
  - done.
Qed.

Lemma timers_ok_run inputs : ∀ a s,
  timers_ok s → timers_ok (run inputs (a, s)).2.
Proof.
  induction inputs as [|i inputs IH]; intros a s H; [done|].
  rewrite run_cons. pose proof (timers_ok_step i a s H) as H1.
  destruct (step i (a, s)) as [a1 s1]. by apply IH.
Qed.

(** A new payload adds exactly one emission. *)
Lemma on_result_emissions result cv s :
  timers_ok s → lastResult (self s) ≠ Some result →
  emissions (on_result result cv s) = S (emissions s).
Proof.
  intros (W1 & W2 & W3) Hne.
  destruct (on_result_new result cv s Hne) as (Ht & _).
  destruct (on_result_keeps result cv s) as (_ & _ & _ & _ & _ & Hem).
  unfold emissions, queued. rewrite Ht, Hem.
  set (P := λ kv : Z * (Z * Task), is_emit kv.2.2 = true).
  set (old := match refractoryTimeout (self s) with
              | Some i => delete i (timers s) | None => timers s end).
  assert (Hfresh : ∀ id, next_timer s ≤ id → old !! id = None).
  { intros id Hid. destruct (old !! id) as [t|] eqn:Hl; [|done].
    assert (timers s !! id = Some t) as Hl'.
    { subst old. destruct (refractoryTimeout (self s)); [|done].
      by apply lookup_delete_Some in Hl as [_ ?]. }
    apply W1 in Hl'. lia. }
  assert (Hold : filter P old = filter P (timers s)).
  { subst old. destruct (refractoryTimeout (self s)) as [i|] eqn:Hr; [|done].
    apply map_filter_delete_not. intros [d t] Hl. subst P. simpl.
    pose proof (W3 i (d, t) eq_refl Hl) as Hc. simpl in Hc. by subst t. }
  rewrite map_filter_insert_True by done.
  rewrite map_filter_insert_False by done.
  rewrite map_size_insert_None.
  - rewrite map_filter_delete, Hold.
    rewrite map_size_delete_None; [lia|].
    apply map_lookup_filter_None. left.
    destruct (timers s !! next_timer s) as [t|] eqn:Hl; [|done].
    apply W1 in Hl. lia.
  - apply map_lookup_filter_None. left.
    rewrite lookup_delete_ne by lia. apply Hfresh. lia.
Qed.

Lemma refractory_step P left n i a s :
  refractory P left n s → decodes_only analyze P [i] →
  0 < left - elapsed [i] →
  refractory P (left - elapsed [i]) n (step i (a, s)).2.
Proof.
  intros (Hok & Hlast & (id & Hr & Hid) & Hem) Hdec Hleft.
  pose proof (timers_ok_step i a s Hok) as Hok'.
  unfold refractory. split; [done|].
  destruct i as [v|j|dt|]; simpl in Hleft |- *.
  - rewrite Z.sub_0_r in *. destruct (frames s) as [|m]; [by eauto 10|].
    unfold ActiveScan.scan. simpl.
    destruct (active (self s)); [|by eauto 10]. simpl.
    destruct (decide _); [by eauto 10|].
    destruct (analyze v a) as [a' r] eqn:Ha. simpl.
    destruct r as [[result cv]|]; simpl; [|by eauto 10].
    apply Forall_cons in Hdec as [Hdec _].
    specialize (Hdec a (result, cv)). rewrite Ha in Hdec.
    specialize (Hdec eq_refl). simpl in Hdec. subst result.
    rewrite on_result_same by done. simpl. by eauto 10.
  - rewrite Z.sub_0_r in *.
    pose proof (step_emissions (Fire j) a s ltac:(done)) as He. simpl in He.
    destruct (timers s !! j) as [[wait task]|] eqn:Hj; [|by eauto 10].
    destruct (decide (wait ≤ 0)); [|by eauto 10].
    simpl in He |- *. destruct Hok as (W1 & W2 & W3).
    destruct task as [|result image].
    + apply W2 in Hj as Hj'. rewrite Hr in Hj'. injection Hj' as <-.
      rewrite Hid in Hj. injection Hj as <-. lia.
    + simpl in He |- *. split_and!; [done| |lia].
      exists id. split; [done|]. rewrite lookup_delete_ne; [done|].
      intros <-. rewrite Hid in Hj. done.
  - pose proof (step_emissions (Advance dt) a s ltac:(done)) as He. simpl in He.
    split_and!; [done| |lia].
    exists id. split; [done|]. rewrite lookup_fmap, Hid. simpl.
    do 2 f_equal. lia.
  - rewrite Z.sub_0_r. split_and!; [done| |done]. by exists id.
Qed.

Lemma elapsed_nonneg (inputs : list (Input (V:=V))) : 0 ≤ elapsed inputs.
Proof. induction inputs as [|[]]; simpl; lia. Qed.

Lemma refractory_run P n inputs : ∀ left a s,
  refractory P left n s → decodes_only analyze P inputs →
  0 < left - elapsed inputs →
  refractory P (left - elapsed inputs) n (run inputs (a, s)).2.
Proof.
  induction inputs as [|i inputs IH]; intros left a s H Hdec Hleft.
  - simpl. by rewrite Z.sub_0_r.
  - apply Forall_cons in Hdec as [Hi Hdec]. rewrite run_cons.
    pose proof (elapsed_nonneg inputs) as Hpos.
    assert (He : elapsed (i :: inputs) = elapsed [i] + elapsed inputs)
      by (destruct i; simpl; lia).
    pose proof (refractory_step P left n i a s H
                  ltac:(by apply Forall_singleton) ltac:(lia)) as H1.
    destruct (step i (a, s)) as [a1 s1].
    specialize (IH _ a1 s1 H1 Hdec ltac:(lia)).
    replace (left - elapsed (i :: inputs))
      with (left - elapsed [i] - elapsed inputs) by lia.
    done.
Qed.

Lemma run_refractoryPeriod rp inputs : ∀ (p : A * Session),
  refractoryPeriod (self p.2) = rp →
  refractoryPeriod (self (run inputs p).2) = rp.
Proof.
  induction inputs as [|i l IH]; intros [a s] H; [done|].
  rewrite run_cons. apply IH. simpl in H.
  destruct i as [v|id|dt|]; simpl; try done.
  - destruct (frames s); [done|]. unfold ActiveScan.scan. simpl.
    destruct (active (self s)); [|done]. simpl.
    destruct (decide _); [done|].
    destruct (analyze v a) as [a' [[r c]|]]; simpl; [|done].
    destruct (decide (lastResult (self s) = Some r)) as [He|Hn].
    + by rewrite on_result_same.
    + match goal with
      | |- refractoryPeriod (self (ActiveScan.on_result _ _ _ ?x)) = _ =>
          destruct (on_result_new r c x Hn) as (_ & _ & _ & _ & -> & _)
      end.
      done.
  - destruct (timers s !! id) as [[wait task]|]; [|done].
    destruct (decide _); [|done]. by destruct task.
Qed.

(** C4 (as the code has it).  Take any state a started session can be in,
    and let the analyzer report a payload [P] other than [lastResult]: the
    callback arms the refractory timer and queues one emission of [P].
    From then on, as long as less than [refractoryPeriod] has elapsed
    since that decode and the analyzer reports nothing but [P],
    [lastResult] stays [P] and no emission is added: a decode of [P]
    leaves the session exactly as it is.  The timer is still pending with
    the remaining time to go; once that time has passed and it fires,
    [lastResult] is cleared, and the next decode of [P] adds a new
    emission. *)
Theorem refractory_window (ci : bool) (N rp : Z) (a0 : A)
    (pre inputs : list (Input (V:=V))) (P : string) (cv : Canvas) :
  lastResult (self (run pre (a0, start (new ci N rp))).2) ≠ Some P →
  decodes_only analyze P inputs →
  elapsed inputs < rp →
  let st := run pre (a0, start (new ci N rp)) in
  let s1 := on_result P cv st.2 in
  let st' := run inputs (st.1, s1) in
  emissions s1 = S (emissions st.2)
  ∧ lastResult (self st'.2) = Some P
  ∧ emissions st'.2 = emissions s1
  ∧ (∀ cv', on_result P cv' st'.2 = st'.2)
  ∧ ∃ id, refractoryTimeout (self st'.2) = Some id
      ∧ timers st'.2 !! id = Some (rp - elapsed inputs, ClearLastResult)
      ∧ step (Fire id) st' = st'
      ∧ let cleared := run [Advance (rp - elapsed inputs); Fire id] st' in
        lastResult (self cleared.2) = None
        ∧ ∀ cv', emissions (on_result P cv' cleared.2) = S (emissions cleared.2).
Proof.
  intros Hne Hdec Hlt st s1 st'.
  assert (Hok : timers_ok st.2).
  { subst st. apply timers_ok_run, timers_ok_start. }
  assert (Hrp : refractoryPeriod (self st.2) = rp).
  { subst st. by apply run_refractoryPeriod. }
  assert (H1 : emissions s1 = S (emissions st.2))
    by (by apply on_result_emissions).
  destruct (on_result_new P cv st.2 Hne) as (Ht & Hn & Hl & Hr & Hp & _).
  fold s1 in Ht, Hn, Hl, Hr, Hp.
  assert (R1 : refractory P rp (emissions s1) s1).
  { unfold refractory. split_and!; try done.
    - by apply timers_ok_on_result.
    - exists (next_timer st.2). split; [done|].
      rewrite Ht, lookup_insert_ne by lia.
      by rewrite lookup_insert_eq, Hrp. }
  pose proof (refractory_run P _ inputs rp st.1 s1 R1 Hdec ltac:(lia)) as R.
  fold st' in R. destruct R as (Hok' & Hl' & (id & Hr' & Hid') & He').
  split; [done|]. split; [done|]. split; [done|].
  split; [intros cv'; by apply on_result_same|].
  exists id. split; [done|]. split; [done|].
  destruct st' as [a' s'] eqn:Hst'. simpl in *.
  split.
  { rewrite Hid'. by rewrite decide_False by lia. }
  rewrite lookup_fmap, Hid'. simpl.
  rewrite decide_True by lia. simpl. split; [done|].
  intros cv'.
  pose proof (timers_ok_run [Advance (rp - elapsed inputs); Fire id] a' s' Hok') as Hok2.
  simpl in Hok2. rewrite lookup_fmap, Hid' in Hok2. simpl in Hok2.
  rewrite decide_True in Hok2 by lia. simpl in Hok2.
  by apply on_result_emissions.
Qed.

End Facts.

(** C5 at [scanPeriod] 3: seven ticks, with time passing in between, make
    two attempts; an analyzer that records what it is shown has seen the
    third and the sixth frame, and nothing else. *)
Lemma one_attempt_per_period_witness :
  0 < 3
  ∧ Z.of_nat (attempts (ActiveScan.run Sampling.recorder no_image
      [Frame "1"; Frame "2"; Frame "3"; Advance 5; Fire 2;
       Frame "4"; Frame "5"; Frame "6"; Frame "7"]
      ([], start (new false 3 5000))).2) = 7 `div` 3
  ∧ (ActiveScan.run Sampling.recorder no_image
      [Frame "1"; Frame "2"; Frame "3"; Advance 5; Fire 2;
       Frame "4"; Frame "5"; Frame "6"; Frame "7"]
      ([], start (new false 3 5000))).1 = ["3"; "6"].
Proof.
  pose proof (one_attempt_per_period Sampling.recorder no_image false 3 5000 []
    [Frame "1"; Frame "2"; Frame "3"; Advance 5; Fire 2;
     Frame "4"; Frame "5"; Frame "6"; Frame "7"] "8"
    ltac:(lia) ltac:(repeat constructor; done)) as (H1 & _ & _ & H4 & _).
  split; [lia|]. split; [exact H1|]. rewrite H4. reflexivity.
Defined.


(** C4 as stated fails.  First run: "P" is delivered, "Q" is decoded, and
    20 ms after its delivery "P" is decoded again and adds an emission,
    which is delivered as well.  Second run: the delivery of "P" is 4 ms
    late, the refractory timer fires 5001 ms after the decode, and a
    decode of "P" then, 4997 ms after the delivery, adds an emission. *)
Lemma repeat_within_refractory_period :
  (emitted after_P_then_Q.2 = [("P", None)]
   ∧ elapsed P_then_Q = 20
   ∧ 20 < refractoryPeriod (self after_P_then_Q.2)
   ∧ emissions (ActiveScan.step oracle no_image (Frame (Some "P"))
                  after_P_then_Q).2
     = S (emissions after_P_then_Q.2)
   ∧ emitted (ActiveScan.run oracle no_image
                [Frame (Some "P"); Fire 4; Fire 6] after_P_then_Q).2
     = [("P", None); ("Q", None); ("P", None)])
  ∧ (emitted after_late_delivery.2 = [("P", None)]
     ∧ elapsed (V:=option string) [Advance 4997; Fire 1] = 4997
     ∧ 4997 < refractoryPeriod (self after_late_delivery.2)
     ∧ emissions (ActiveScan.step oracle no_image (Frame (Some "P"))
                    after_late_delivery).2
       = S (emissions after_late_delivery.2)).
Proof.
  split; split_and!; try reflexivity; vm_compute; done.
Qed.

(** C4 (as the code has it) at [refractoryPeriod] 5000: "P" is decoded on
    the first tick; for the next 4999 ms further decodes of "P" add
    nothing. *)
Lemma refractory_window_witness :
  emissions (ActiveScan.run oracle no_image
    [Fire 2; Advance 2000; Frame (Some "P"); Advance 2999; Frame (Some "P")]
    (tt, on_result no_image "P" tt
           (ActiveScan.run oracle no_image [] (tt, start (new false 1 5000))).2)).2
  = emissions (on_result no_image "P" tt
      (ActiveScan.run oracle no_image [] (tt, start (new false 1 5000))).2).
Proof.
  pose proof (refractory_window oracle no_image false 1 5000 tt []
    [Fire 2; Advance 2000; Frame (Some "P"); Advance 2999; Frame (Some "P")]
    "P" tt ltac:(done)
    ltac:(repeat constructor; intros a [r c]; simpl; congruence)
    ltac:(simpl; lia)) as H.
  exact (proj1 (proj2 (proj2 H))).
Defined.

End ActiveScanFacts.

Module ScannerFacts.
Import StateMachine Scanner.

Ltac split_start cstart :=
  repeat match goal with
         | |- context [cstart ?c ?d] => destruct (cstart c d) as [? []]
         end.

Ltac split_start_dropped cstart Hk :=
  repeat match goal with
         | |- context [cstart ?c ?d] =>
             let H := fresh in
             pose proof (Hk c d) as H;
             destruct (cstart c d) as [? []]; simpl in H; [discriminate H|]
         end.

Lemma alternates_snoc l : ∀ b x,
  alternates b l → x = xorb b (Nat.odd (length l)) → alternates b (l ++ [x]).
Proof.
  induction l as [|y l IH]; intros b x Ha Hx; simpl in *.
  - subst x. by destruct b.
  - destruct Ha as [-> Ha]. split; [done|]. apply IH; [done|].
    subst x. rewrite Nat.odd_succ, <- Nat.negb_odd. by destruct b, (Nat.odd _).
Qed.

Section Facts.
Context {Cam Dev Err : Type}.

Local Abbreviation World := (World Cam Dev Err).
Local Abbreviation Input := (Input Cam Dev Err).

Lemma run_snoc `{!CameraDevice Cam Dev} inputs i (w : World) :
  run (inputs ++ [i]) w = step (run inputs w) i.
Proof. unfold run. by rewrite foldl_app. Qed.

(** ** What every reachable scanner satisfies *)

Lemma consistent_new `{!CameraDevice Cam Dev} opts vis dev :
  consistent (new opts vis dev : World).
Proof. by vm_compute. Qed.

Lemma consistent_step {CD : CameraDevice Cam Dev} (w : World) (i : Input) :
  consistent w → consistent (step w i).
Proof.
  destruct CD as [cstart cstop].
  destruct w as [sc ca sp rp ci bg vs [cur tr] vis em de aw dv re].
  unfold consistent at 1. unfold consistent_fields. simpl.
  intros (Hn & Hp & Ha & He).
  destruct tr as [[pn pf pt pa]|]; simpl in Hp;
    [destruct Hp as (-> & -> & -> & Hcur)|].
  all: destruct cur; try done; try (by destruct Hcur).
  all: match type of He with
       | context [bool_decide ?P] =>
           let b := eval vm_compute in (bool_decide P) in
           change (bool_decide P) with b in He
       end.
  all: destruct ca, sc; (destruct i as [cam| |cam|name cam|state| |reply|f];
  [ destruct vis, bg, cam
  | 
  | destruct vis, bg, cam
  | destruct name; [ | destruct vis, bg, cam | | destruct vis, bg, cam | ]
  | destruct state, bg
  | destruct de; [ | destruct vis, bg ]
  | destruct aw; [ | destruct reply ]
  | ]);
  unfold consistent;
  (match goal with
   | |- consistent_fields ?a ?b ?c =>
       let a' := eval lazy in a in
       let b' := eval lazy in b in
       let c' := eval lazy in c in
       change (consistent_fields a' b' c')
   end);
  split_start cstart;
  unfold consistent_fields; simpl; rewrite ?He;
  split_and!; first [assumption | reflexivity | discriminate | by left | by right].
Qed.

Lemma consistent_run {CD : CameraDevice Cam Dev} inputs : ∀ w : World,
  consistent w → consistent (run inputs w).
Proof.
  induction inputs as [|i inputs IH]; intros w H; [done|].
  simpl. by apply IH, consistent_step.
Qed.

Lemma alternating_trace (em : list (Emission Err)) :
  alternating em →
  alternates false (omap lifecycle (rev em))
  ∧ match last_lifecycle em with
    | None => omap lifecycle (rev em) = []
    | Some b => Nat.even (length (omap lifecycle (rev em))) = b
    end.
Proof.
  induction em as [|e em IH]; [done|].
  intros [Ha He]. destruct (IH Ha) as [IH1 IH2]. clear IH.
  simpl. rewrite omap_app. simpl.
  destruct (lifecycle e) as [b|]; simpl.
  - assert (Hodd : b = Nat.odd (length (omap lifecycle (rev em)))).
    { destruct (last_lifecycle em) as [b'|].
      - rewrite <- Nat.negb_even, IH2. done.
      - by rewrite IH2, He. }
    split.
    + apply alternates_snoc; [done|]. by simpl.
    + rewrite length_app. simpl. rewrite Nat.add_1_r, Nat.even_succ. done.
  - rewrite app_nil_r. done.
Qed.

(** C2.  Whatever is done to a scanner after its construction (calls of
    [start], [stop] and the camera setter, event methods of its machine
    called directly, visibility changes, deferred callbacks, cameras
    calling back, in any order), its ['active'] and ['inactive'] emissions
    alternate, beginning with the ['inactive'] of the constructor: between
    two ['active'] emissions there is exactly one ['inactive']. *)
Theorem active_inactive_alternate {CD : CameraDevice Cam Dev}
    (opts : Options) (vis : Visibility) (dev : Dev) (inputs : list Input) :
  alternates false (lifecycle_trace (run inputs (new opts vis dev))).
Proof.
  pose proof (consistent_run inputs _ (consistent_new opts vis dev)) as (_ & _ & Ha & _).
  by apply alternating_trace.
Qed.

(** ** Visibility *)




Lemma bind_gets {E A B} (f : World → A) (k : A → Js.M E World B) (w : World) :
  Js.bind (Js.gets f) k w = k (f w) w.
Proof. done. Qed.

(** ** While a transition is under way *)

(** Every event method throws, and nothing changes. *)
Lemma fsm_pending {CD : CameraDevice Cam Dev} (w : World) name camera :
  transition (_fsm w) ≠ None →
  fsm name camera w = (Js.Threw (PENDING_TRANSITION name), w).
Proof.
  intros Hp. unfold fsm, buildEvent, Js.bind, Js.gets. simpl.
  destruct (transition (_fsm w)) as [p|]; [|done].
  by rewrite bool_decide_eq_true_2.
Qed.

Lemma start_pending {CD : CameraDevice Cam Dev} (w : World) camera :
  transition (_fsm w) ≠ None →
  handle (CallStart camera) w = (Js.Threw (PENDING_TRANSITION stop), w).
Proof.
  intros Hp. simpl. unfold start_, fsm_can, can, Js.bind, Js.gets. simpl.
  destruct (transition (_fsm w)) as [p|] eqn:Ht; [|done].
  rewrite bool_decide_eq_true_2 by done. simpl.
  rewrite fsm_pending; [done|]. by rewrite Ht.
Qed.

Lemma set_camera_pending {CD : CameraDevice Cam Dev} (w : World) camera :
  transition (_fsm w) ≠ None → current (_fsm w) = started →
  handle (SetCamera camera) w = (Js.Threw (PENDING_TRANSITION stop), w).
Proof.
  intros Hp Hc. simpl. unfold set_camera, Js.bind, Js.gets. simpl.
  rewrite Hc. simpl. by rewrite fsm_pending.
Qed.

(** If no camera holds a callback, a scanner with a transition under way
    stays as it is: no input changes its machine, its session or what it
    has emitted. *)
Lemma suspended_step {CD : CameraDevice Cam Dev} (w : World) (i : Input) :
  transition (_fsm w) ≠ None → awaiting w = 0%nat →
  _fsm (step w i) = _fsm w ∧ emitted (step w i) = emitted w
  ∧ awaiting (step w i) = 0%nat ∧ _scan (step w i) = _scan w
  ∧ video_src (step w i) = video_src w.
Proof.
  intros Hp Haw. unfold step, Js.exec.
  destruct i as [cam| |cam|name cam|state| |reply|f].
  - rewrite start_pending; done.
  - simpl. unfold stop_, fsm_can, can, Js.bind, Js.gets. simpl.
    destruct (transition (_fsm w)); [|done].
    by rewrite bool_decide_eq_true_2.
  - simpl. unfold set_camera, Js.bind, Js.gets. simpl.
    destruct (bool_decide _ || bool_decide _); simpl; [done|].
    by rewrite fsm_pending.
  - simpl. unfold Js.bind. by rewrite fsm_pending.
  - simpl. unfold on_visibility_change, fsm_can, can, Js.bind, Js.gets, Js.modify.
    simpl. destruct (decide (state = visible)); simpl; [done|].
    destruct (transition (_fsm w)); [|done].
    rewrite bool_decide_eq_true_2 by done. simpl.
    by rewrite andb_false_r.
  - simpl. unfold deferred_activate, fsm_can, can, Js.bind, Js.gets, Js.modify.
    simpl. destruct (deferred w); simpl; [done|].
    destruct (transition (_fsm w)); [|done].
    by rewrite bool_decide_eq_true_2.
  - simpl. unfold Js.bind, Js.gets. simpl. by rewrite Haw.
  - done.
Qed.

Lemma suspended_run {CD : CameraDevice Cam Dev} inputs : ∀ w : World,
  transition (_fsm w) ≠ None → awaiting w = 0%nat →
  _fsm (run inputs w) = _fsm w ∧ emitted (run inputs w) = emitted w
  ∧ awaiting (run inputs w) = 0%nat ∧ _scan (run inputs w) = _scan w
  ∧ video_src (run inputs w) = video_src w.
Proof.
  induction inputs as [|i inputs IH]; intros w Hp Haw; [done|].
  destruct (suspended_step w i Hp Haw) as (H1 & H2 & H3 & H4 & H5).
  simpl. destruct (IH (step w i)) as (I1 & I2 & I3 & I4 & I5);
    [by rewrite H1|done|].
  rewrite I1, I2, I3, I4, I5. done.
Qed.

(** With cameras that never keep the callback, the scanner never enters
    ['active'] and never emits ['error']. *)
Lemma quiet_step {CD : CameraDevice Cam Dev} (w : World) (i : Input) :
  (∀ c d, (camera_start c d).2 = false) →
  consistent w → quiet w → quiet (step w i).
Proof.
  intros Hk. destruct CD as [cstart cstop]. simpl in Hk.
  destruct w as [sc ca sp rp ci bg vs [cur tr] vis em de aw dv re].
  unfold consistent at 1, quiet at 1, consistent_fields, quiet_fields. simpl.
  intros (_ & Hp & _) (-> & Hc & He).
  destruct tr as [[pn pf pt pa]|]; simpl in Hp;
    [destruct Hp as (-> & -> & -> & Hcur)|].
  all: destruct cur; try done; try (by destruct Hcur).
  all: destruct ca, sc; (destruct i as [cam| |cam|name cam|state| |reply|f];
  [ destruct vis, bg, cam
  |
  | destruct vis, bg, cam
  | destruct name; [ | destruct vis, bg, cam | | destruct vis, bg, cam | ]
  | destruct state, bg
  | destruct de; [ | destruct vis, bg ]
  |
  | ]);
  unfold quiet;
  (match goal with
   | |- quiet_fields ?a ?b ?c =>
       let a' := eval lazy in a in
       let b' := eval lazy in b in
       let c' := eval lazy in c in
       change (quiet_fields a' b' c')
   end);
  split_start_dropped cstart Hk;
  unfold quiet_fields; simpl; rewrite ?He;
  split_and!; first [assumption | reflexivity | discriminate].
Qed.

Lemma quiet_run {CD : CameraDevice Cam Dev} inputs : ∀ w : World,
  (∀ c d, (camera_start c d).2 = false) →
  consistent w → quiet w → quiet (run inputs w).
Proof.
  induction inputs as [|i inputs IH]; intros w Hk Hw Hq; [done|].
  simpl. apply IH; [done|by apply consistent_step|by apply quiet_step].
Qed.

(** ** The camera callback *)

(** A camera that kept the callback and calls it with an error: the
    pending activation is cancelled, the machine is back in the state it
    was in with no transition under way, ['error'] is emitted with the
    error, and no session is started. *)
Lemma camera_error_reported {CD : CameraDevice Cam Dev} (w : World) (err : Err) n :
  consistent w → transition (_fsm w) ≠ None → awaiting w = S n →
  let w' := step w (CameraReply (inl err)) in
  _fsm w' = mkFsm (current (_fsm w)) None
  ∧ emitted w' = Error err :: emitted w
  ∧ _scan w' = _scan w ∧ retired w' = retired w ∧ video_src w' = video_src w
  ∧ devices w' = devices w ∧ awaiting w' = n.
Proof.
  intros (_ & Hp & _) Ht Haw.
  destruct w as [sc ca sp rp ci bg vs [cur tr] vis em de aw dv re].
  simpl in *. subst aw. destruct tr as [[pn pf pt pa]|]; [|done].
  simpl in Hp. destruct Hp as (-> & -> & -> & Hcur).
  destruct Hcur as [-> | ->]; vm_compute; done.
Qed.

(** A camera that calls the callback with a stream: the session is
    created and started, the activation commits and ['active'] is
    emitted. *)
Lemma camera_success_activates {CD : CameraDevice Cam Dev} (w : World) url n :
  consistent w → transition (_fsm w) ≠ None → awaiting w = S n →
  let w' := step w (CameraReply (inr url)) in
  _fsm w' = mkFsm active None
  ∧ emitted w' = Active :: emitted w
  ∧ _scan w' = Some (ActiveScan.start
       (ActiveScan.new (captureImage w) (scanPeriod w) (refractoryPeriod w)))
  ∧ video_src w' = url ∧ devices w' = devices w ∧ awaiting w' = n.
Proof.
  intros (_ & Hp & _) Ht Haw.
  destruct w as [sc ca sp rp ci bg vs [cur tr] vis em de aw dv re].
  simpl in *. subst aw. destruct tr as [[pn pf pt pa]|]; [|done].
  simpl in Hp. destruct Hp as (-> & -> & -> & Hcur).
  destruct Hcur as [-> | ->]; vm_compute; done.
Qed.

(** ** [start] and the camera setter with no transition under way *)

(** [start(camera)] returns, whatever state the machine is in: a scanner
    in ['active'] is first stopped (one ['inactive'], the session stopped
    and dropped), the machine ends in ['started'], and if the activation
    then waits for a camera, that camera is the argument, or the scanner's
    last one when there is none. *)
Lemma start_when_settled {CD : CameraDevice Cam Dev} (w : World) camera :
  consistent w → transition (_fsm w) = None →
  let r := handle (CallStart camera) w in
  r.1 = Js.Returned tt
  ∧ current (_fsm r.2) = started
  ∧ _scan r.2 = (if decide (current (_fsm w) = active) then None else _scan w)
  ∧ emitted r.2 = (if decide (current (_fsm w) = active)
                   then Inactive :: emitted w else emitted w)
  ∧ (∀ p, transition (_fsm r.2) = Some p →
       p = mkPending activate started active camera
       ∧ _camera r.2 = from_option Some (_camera w) camera
       ∧ is_Some (_camera r.2)).
Proof.
  intros (Hn & _) Ht.
  destruct CD as [cstart cstop].
  destruct w as [sc ca sp rp ci bg vs [cur tr] vis em de aw dv re].
  simpl in *. subst tr.
  destruct cur; try done;
    destruct vis, bg, camera, ca, sc; lazy;
    split_start cstart;
    (split_and!; [reflexivity..|]);
    intros p Hp; try discriminate Hp; injection Hp as <-;
    split_and!; try reflexivity; by eexists.
Qed.

(** In ['stopped'] and ['inactive'] the setter only records the camera. *)
Lemma set_camera_records {CD : CameraDevice Cam Dev} (w : World) camera :
  current (_fsm w) = stopped ∨ current (_fsm w) = inactive →
  handle (SetCamera camera) w = (Js.Returned tt, set__camera camera w).
Proof.
  intros Hc. simpl. unfold set_camera, Js.bind, Js.gets, Js.modify. simpl.
  by destruct Hc as [-> | ->].
Qed.

(** In ['active'], and in ['started'] with no transition under way, the
    setter stops and starts again with the new camera. *)
Lemma set_camera_restarts {CD : CameraDevice Cam Dev} (w : World) camera :
  transition (_fsm w) = None →
  current (_fsm w) = started ∨ current (_fsm w) = active →
  handle (SetCamera camera) w = handle (CallStart camera) w.
Proof.
  intros Ht Hc.
  assert (Hcan : can _fsm map start w = false).
  { unfold can. rewrite Ht. by destruct Hc as [-> | ->]. }
  assert (Hcur : bool_decide (current (_fsm w) = stopped)
                 || bool_decide (current (_fsm w) = inactive) = false).
  { by destruct Hc as [-> | ->]. }
  unfold handle, set_camera, start_, fsm_can.
  rewrite !bind_gets, Hcan, Hcur. done.
Qed.

End Facts.

(** ** With cameras that call back *)

Import CallbackCamera.

(** C6 at the failing input: [start(camera 8)] while the activation begun
    by [start(camera 7)] waits for the camera.  [can('start')] is false,
    the forced [this._fsm.stop()] throws, and the scanner is left as it
    was: camera 8 is never started, the machine is still in ['started']
    with the first activation under way. *)
Theorem start_during_acquisition_throws :
  current (_fsm acquiring) = started
  ∧ transition (_fsm acquiring)
    = Some (mkPending activate started active (Some 7%nat))
  ∧ handle (CallStart (Some 8%nat)) acquiring
    = (Js.Threw (PENDING_TRANSITION stop), acquiring)
  ∧ devices (step acquiring (CallStart (Some 8%nat))) = [Start 7%nat]
  ∧ _camera (step acquiring (CallStart (Some 8%nat))) = Some 7%nat.
Proof. split_and!; reflexivity. Qed.

(** C7 at the failing input: the camera is set to camera 8 while the
    machine is in ['started'] and the activation with camera 7 waits for
    the camera.  The forced [this._fsm.stop()] throws and nothing changes;
    when camera 7 then delivers its stream, the session starts on it. *)
Theorem set_camera_during_acquisition_throws :
  current (_fsm acquiring) = started
  ∧ handle (SetCamera (Some 8%nat)) acquiring
    = (Js.Threw (PENDING_TRANSITION stop), acquiring)
  ∧ current (_fsm (run [SetCamera (Some 8%nat); CameraReply (inr "blob:7")]
                     acquiring)) = active
  ∧ _camera (run [SetCamera (Some 8%nat); CameraReply (inr "blob:7")]
               acquiring) = Some 7%nat
  ∧ devices (run [SetCamera (Some 8%nat); CameraReply (inr "blob:7")]
               acquiring) = [Start 7%nat].
Proof. split_and!; reflexivity. Qed.

(** ** Which camera is stopped *)

Import Streaming.






End ScannerFacts.

Module RepoFacts.
Import StateMachine Scanner Repo.

(** C1 at the failing input: the scanner is started with a [Camera] whose
    [getUserMedia] is refused.  [Camera.start()] rejects the promise it
    returned with a [MediaError]; the callback [_enableScan] passed was
    dropped, so its error branch never runs: no ['error'] is emitted, and
    the machine stays in ['started'] with the activation under way,
    whatever is done to the scanner afterwards.  More generally, whatever
    is done to a scanner used with such cameras, it never emits ['error']
    (and never reaches ['active']). *)
Theorem acquisition_failure_not_reported :
  settled (devices refused)
  = [Camera.Rejected (Camera.MediaError "NotAllowedError" denied)]
  ∧ acquiring (devices refused) = []
  ∧ awaiting refused = 0%nat
  ∧ errors refused = []
  ∧ current (_fsm refused) = started
  ∧ transition (_fsm refused)
    = Some (mkPending activate started active (Some 0%nat))
  ∧ _scan refused = None
  ∧ (∀ inputs,
       _fsm (run inputs refused) = _fsm refused
       ∧ errors (run inputs refused) = []
       ∧ _scan (run inputs refused) = None)
  ∧ (∀ inputs,
       errors (run inputs scanner) = []
       ∧ current (_fsm (run inputs scanner)) ≠ active).
Proof.
  split_and!; try reflexivity.
  - intros inputs.
    destruct (ScannerFacts.suspended_run inputs refused ltac:(done) eq_refl)
      as (H1 & H2 & _ & H4 & _).
    unfold errors. rewrite H1, H2, H4. done.
  - intros inputs.
    destruct (ScannerFacts.quiet_run inputs scanner) as (_ & Hc & He);
      [done| |by vm_compute|done].
    apply ScannerFacts.consistent_new.
Qed.

End RepoFacts.

Module CameraNameFacts.
Import CameraName.

Lemma take_drop_while p l : take_while p l ++ drop_while p l = l.
Proof. induction l as [|c l IH]; simpl; [done|]. destruct (p c); simpl; by f_equal. Qed.

Lemma drop_while_app p xs rest :
  Forall (λ c, p c = true) xs → drop_while p (xs ++ rest) = drop_while p rest.
Proof. induction 1 as [|c xs Hc _ IH]; simpl; [done|]. by rewrite Hc. Qed.

Lemma take_while_app p xs c rest :
  Forall (λ c, p c = true) xs → p c = false →
  take_while p (xs ++ c :: rest) = xs.
Proof.
  intros Hxs Hc. induction Hxs as [|d xs Hd _ IH]; simpl.
  - by rewrite Hc.
  - rewrite Hd. by f_equal.
Qed.

Lemma drop_while_stop p c rest : p c = false → drop_while p (c :: rest) = c :: rest.
Proof. intros H. simpl. by rewrite H. Qed.

Lemma hex_run_app xs c rest :
  xs ≠ [] → Forall (λ c, is_hex c = true) xs → is_hex c = false →
  hex_run (xs ++ c :: rest) = Some (c :: rest).
Proof.
  intros Hne Hxs Hc. unfold hex_run.
  rewrite take_while_app by done. destruct xs; [done|].
  rewrite drop_while_app by done. by rewrite drop_while_stop.
Qed.

Lemma hex_run_suffix r r' : hex_run r = Some r' → ∃ k, r = k ++ r'.
Proof.
  unfold hex_run. destruct (take_while is_hex r) eqn:H; [done|].
  intros [= <-]. exists (take_while is_hex r). by rewrite take_drop_while.
Qed.

Lemma strip_id_suffix r r' :
  strip_id r = Some r' → ∃ k, k ≠ [] ∧ r = k ++ r'.
Proof.
  unfold strip_id. intros H.
  pose proof (take_drop_while is_space r) as E0.
  destruct (drop_while is_space r) as [|c0 r0]; [done|].
  destruct (decide (c0 = ")"%char)) as [->|Hn];
    [|by destruct c0 as [[] [] [] [] [] [] [] []]].
  destruct (hex_run r0) as [r1|] eqn:H1; [|done].
  apply hex_run_suffix in H1 as [k1 ->].
  destruct r1 as [|c1 r1]; [done|].
  destruct (decide (c1 = "("%char)) as [->|Hn1].
  { injection H as <-.
    pose proof (take_drop_while is_space r1) as E1.
    exists (take_while is_space r ++ ")"%char :: k1 ++ "("%char :: take_while is_space r1).
    split; [by destruct (take_while is_space r)|].
    rewrite <- E0 at 1. rewrite <- E1 at 1.
    by rewrite <- !app_assoc, <- !app_comm_cons, <- ?app_assoc. }
  destruct (decide (c1 = ":"%char)) as [->|Hn2];
    [|by destruct c1 as [[] [] [] [] [] [] [] []]].
  destruct (hex_run r1) as [r2|] eqn:H2; [|done].
  apply hex_run_suffix in H2 as [k2 ->].
  destruct r2 as [|c2 r2]; [done|].
  destruct (decide (c2 = "("%char)) as [->|Hn3];
    [|by destruct c2 as [[] [] [] [] [] [] [] []]].
  injection H as <-.
  pose proof (take_drop_while is_space r2) as E2.
  exists (take_while is_space r ++ ")"%char :: k1 ++ ":"%char :: k2
          ++ "("%char :: take_while is_space r2).
  split; [by destruct (take_while is_space r)|].
  rewrite <- E0 at 1. rewrite <- E2 at 1.
  by rewrite <- !app_assoc, <- !app_comm_cons, <- ?app_assoc, <- ?app_comm_cons, <- ?app_assoc.
Qed.

Lemma string_of_app (a b : list ascii) :
  String.string_of_list_ascii (a ++ b)
  = String.string_of_list_ascii a +:+ String.string_of_list_ascii b.
Proof. induction a as [|c a IH]; [done|]. cbn. rewrite IH. reflexivity. Qed.

Lemma append_empty_r (s : string) : s +:+ EmptyString = s.
Proof.
  induction s as [|c s IH]; [done|].
  change (String c (s +:+ EmptyString) = String c s). by rewrite IH.
Qed.

Lemma clean_prefix label : ∃ suffix, label = clean label +:+ suffix.
Proof.
  unfold clean.
  destruct (strip_id _) as [r|] eqn:H.
  - apply strip_id_suffix in H as (k & _ & H).
    exists (String.string_of_list_ascii (rev k)).
    rewrite <- string_of_app, <- rev_app_distr, <- H, rev_involutive.
    by rewrite String.string_of_list_ascii_of_string.
  - exists EmptyString. symmetry. apply append_empty_r.
Qed.

(** X1.  [cameraName] only ever removes a suffix of the label, never returns
    the empty string, and returns null for the empty label only. *)
Theorem cameraName_is_prefix (label : string) :
  match cameraName label with
  | Some name => name ≠ "" ∧ ∃ suffix, label = name +:+ suffix
  | None => label = ""
  end.
Proof.
  unfold cameraName. case_bool_decide as Hc.
  - split; [done|]. apply clean_prefix.
  - case_bool_decide as Hl.
    + split; [done|]. exists EmptyString. symmetry. apply append_empty_r.
    + by destruct (decide (label = "")).
Qed.

Lemma rev_nonempty (l : list ascii) : l ≠ [] → rev l ≠ [].
Proof. destruct l as [|c l]; [done|]. simpl. intros _. by destruct (rev l). Qed.

Lemma drop_while_rev_name name ws :
  name ≠ [] → (∀ c, last name = Some c → is_space c = false) →
  Forall (λ c, is_space c = true) ws →
  drop_while is_space (rev ws ++ rev name) = rev name.
Proof.
  intros Hne Hlast Hws.
  rewrite drop_while_app by (by apply Forall_rev).
  pose proof (rev_nonempty name Hne) as Hrn.
  destruct (rev name) as [|c r] eqn:Hr; [done|].
  apply drop_while_stop, Hlast.
  rewrite <- (rev_involutive name), Hr. simpl. by rewrite last_snoc.
Qed.

(** X2.  A label made of a name, white space, a parenthesised identifier of
    lower-case hexadecimal digits (one group, or two separated by a colon)
    and trailing white space: [cameraName] returns the name. *)
Theorem cameraName_strips_id (name ws1 h1 tail ws2 : list ascii) :
  name ≠ [] → (∀ c, last name = Some c → is_space c = false) →
  Forall (λ c, is_space c = true) ws1 → Forall (λ c, is_space c = true) ws2 →
  h1 ≠ [] → Forall (λ c, is_hex c = true) h1 →
  (tail = [] ∨ ∃ h2, h2 ≠ [] ∧ Forall (λ c, is_hex c = true) h2
                     ∧ tail = ":"%char :: h2) →
  cameraName (String.string_of_list_ascii
                (name ++ ws1 ++ "("%char :: h1 ++ tail ++ ")"%char :: ws2))
  = Some (String.string_of_list_ascii name).
Proof.
  intros Hne Hlast Hw1 Hw2 Hh1 Hx1 Htail.
  pose proof (rev_nonempty h1 Hh1) as Hrev1.
  assert (Hclean : clean (String.string_of_list_ascii
            (name ++ ws1 ++ "("%char :: h1 ++ tail ++ ")"%char :: ws2))
          = String.string_of_list_ascii name).
  { unfold clean. rewrite String.list_ascii_of_string_of_list_ascii.
    assert (strip_id (rev (name ++ ws1 ++ "("%char :: h1 ++ tail ++ ")"%char :: ws2))
            = Some (rev name)) as ->; [|by rewrite rev_involutive].
    rewrite !rev_app_distr. simpl. rewrite !rev_app_distr. simpl.
    rewrite <- !app_assoc. simpl. unfold strip_id.
    rewrite drop_while_app by (by apply Forall_rev).
    rewrite drop_while_stop by done.
    destruct Htail as [-> | (h2 & Hh2 & Hx2 & ->)]; simpl.
    - rewrite hex_run_app by (done || by apply Forall_rev).
      by rewrite drop_while_rev_name.
    - pose proof (rev_nonempty h2 Hh2) as Hrev2.
      rewrite <- !app_assoc. simpl.
      rewrite hex_run_app by (done || by apply Forall_rev).
      rewrite hex_run_app by (done || by apply Forall_rev).
      by rewrite drop_while_rev_name. }
  unfold cameraName. rewrite Hclean.
  rewrite bool_decide_eq_true_2; [done|]. by destruct name.
Qed.

Lemma cameraName_strips_id_witness :
  cameraName "FaceTime HD Camera (05ac:8514)" = Some "FaceTime HD Camera".
Proof.
  apply (cameraName_strips_id
    (String.list_ascii_of_string "FaceTime HD Camera")
    (String.list_ascii_of_string " ")
    (String.list_ascii_of_string "05ac")
    (String.list_ascii_of_string ":8514") []).
  - done.
  - simpl. by intros c [= <-].
  - by repeat constructor.
  - constructor.
  - done.
  - by repeat constructor.
  - right. exists (String.list_ascii_of_string "8514").
    split; [done|]. split; [by repeat constructor|done].
Defined.
End CameraNameFacts.

(* ================================================================== *)
(** * Camera: acquiring and releasing streams *)
(* ================================================================== *)

Module CameraStreamFacts.
Import Camera.

Lemma fresh_lookup (h : Streams) : h !! fresh (dom h) = None.
Proof. apply not_elem_of_dom, is_fresh. Qed.

Lemma stop_video_tracks_dead ts :
  Forall (λ t, kind t = VideoTrack → live t = false) (stop_video_tracks ts).
Proof.
  unfold stop_video_tracks. apply Forall_fmap, Forall_forall. intros t _. simpl.
  destruct (decide (kind t = VideoTrack)); simpl; congruence.
Qed.

(** X3.  [start()] never touches a stream that exists already, whether it
    succeeds or fails; when it fails, the camera is unchanged, so a
    stream it held is still held. *)
Theorem start_keeps_streams (development : bool)
    (gum : JsError + list MediaStreamTrack) (c : Camera) (h : Streams) :
  let '(p, c', h') := start development gum c h in
  (∀ r ts, h !! r = Some ts → h' !! r = Some ts)
  ∧ match p with
    | Rejected _ => c' = c ∧ h' = h
    | Resolved r =>
        h !! r = None ∧ _stream c' = Some r
        ∧ match gum with
          | inr tracks => h' !! r = Some tracks
          | inl _ => False
          end
    end.
Proof.
  unfold start. destruct gum as [e|tracks]; simpl.
  - destruct (bool_decide _ && _); done.
  - pose proof (fresh_lookup h) as Hf. split_and!; [|done|done|].
    + intros r ts Hr. rewrite lookup_insert_ne; [done|]. congruence.
    + by rewrite lookup_insert_eq.
Qed.

(** X4.  [start()] followed by [stop()]: the camera holds no stream again,
    the stream obtained has no live video track left, and every other
    stream is as it was. *)
Theorem start_then_stop (development : bool) (tracks : list MediaStreamTrack)
    (c : Camera) (h : Streams) :
  let '(_, c1, h1) := start development (inr tracks) c h in
  let '(c2, h2) := stop c1 h1 in
  _stream c2 = None ∧ id c2 = id c ∧ name c2 = name c
  ∧ h2 = <[fresh (dom h) := stop_video_tracks tracks]> h
  ∧ (∀ ts, h2 !! fresh (dom h) = Some ts →
           Forall (λ t, kind t = VideoTrack → live t = false) ts)
  ∧ (∀ r ts, h !! r = Some ts → h2 !! r = Some ts).
Proof.
  unfold start, stop. simpl. pose proof (fresh_lookup h) as Hf.
  assert (Heq : alter stop_video_tracks (fresh (dom h))
                  (<[fresh (dom h) := tracks]> h)
                = <[fresh (dom h) := stop_video_tracks tracks]> h).
  { by rewrite alter_insert_eq. }
  rewrite Heq. split_and!; try done.
  - intros ts. rewrite lookup_insert_eq. intros [= <-].
    apply stop_video_tracks_dead.
  - intros r ts Hr. rewrite lookup_insert_ne; [done|]. congruence.
Qed.

(** X5.  [start()] called again on a camera that holds a stream: the camera
    forgets the first stream without stopping it, and a later [stop()]
    ends the tracks of the second stream only. *)
Theorem restart_leaves_first_stream (development : bool)
    (t1 t2 : list MediaStreamTrack) (c : Camera) (h : Streams) :
  let '(_, c1, h1) := start development (inr t1) c h in
  let '(_, c2, h2) := start development (inr t2) c1 h1 in
  let '(c3, h3) := stop c2 h2 in
  ∃ r1 r2, _stream c1 = Some r1 ∧ _stream c2 = Some r2 ∧ r1 ≠ r2
           ∧ _stream c3 = None
           ∧ h3 !! r1 = Some t1
           ∧ h3 !! r2 = Some (stop_video_tracks t2).
Proof.
  unfold start, stop. simpl.
  set (r1 := fresh (dom h)).
  set (r2 := fresh (dom (<[r1 := t1]> h))).
  assert (Hne : r1 ≠ r2).
  { intros Heq. pose proof (fresh_lookup (<[r1 := t1]> h)) as Hf.
    fold r2 in Hf. rewrite <- Heq, lookup_insert_eq in Hf. done. }
  exists r1, r2. split_and!; try done.
  - rewrite lookup_alter_ne by done.
    rewrite lookup_insert_ne by done. by rewrite lookup_insert_eq.
  - rewrite lookup_alter_eq, lookup_insert_eq. done.
Qed.

End CameraStreamFacts.

(* ================================================================== *)
(** * Camera: the static methods *)
(* ================================================================== *)

Module CameraStaticsFacts.
Import Camera CameraStatics.

(** The name given to a camera is never the empty string (it is null
    for an empty label) and is an initial part of the label. *)
Lemma cameraName_of_label label :
  CameraName.cameraName label ≠ Some ""
  ∧ ∀ n, CameraName.cameraName label = Some n → ∃ suffix, label = n +:+ suffix.
Proof.
  unfold CameraName.cameraName.
  case_bool_decide as Hc; [|case_bool_decide as Hl].
  - split; [congruence|]. intros n [= <-]. apply CameraNameFacts.clean_prefix.
  - split; [congruence|]. intros n [= <-]. exists EmptyString.
    symmetry. apply CameraNameFacts.append_empty_r.
  - split; [done|]. by intros ? [=].
Qed.

(** X6.  [getCameras()] resolves exactly when access is granted and the
    devices can be listed.  It then gives one camera for each
    ['videoinput'] device, in the order of the listing and with the
    device's identifier; no camera holds a stream, and no camera is
    named by the empty string. *)
Theorem getCameras_lists_video_inputs (development : bool)
    (gum : JsError + list MediaStreamTrack)
    (enumerate : JsError + list MediaDeviceInfo) (h : Streams) :
  match (getCameras development gum enumerate h).1 with
  | Resolved cams =>
      ∃ tracks devices, gum = inr tracks ∧ enumerate = inr devices
      ∧ id <$> cams
        = deviceId <$> filter (λ d, dev_kind d = "videoinput") devices
      ∧ Forall (λ c, _stream c = None ∧ name c ≠ Some "") cams
  | Rejected t =>
      match gum with
      | inl e => wrapErrors development (inl e) = Rejected (A:=unit) t
      | inr _ => ∃ e, enumerate = inl e ∧ t = Rethrown e
      end
  end.
Proof.
  unfold getCameras, ensureAccess.
  destruct gum as [e|tracks]; simpl.
  - destruct (bool_decide _ && _); done.
  - destruct enumerate as [e|devices]; simpl; [by exists e|].
    exists tracks, devices. split_and!; try done.
    + unfold cameras_of. rewrite <- list_fmap_compose. done.
    + unfold cameras_of. apply Forall_fmap, Forall_forall. intros d _. simpl.
      split; [done|]. apply cameraName_of_label.
Qed.

(** X7.  [getCameras()] leaves no camera running: the stream it opens to ask
    for access has no live video track afterwards, whether the listing
    succeeds or not, and the streams that existed are untouched. *)
Theorem getCameras_releases_probe (development : bool)
    (gum : JsError + list MediaStreamTrack)
    (enumerate : JsError + list MediaDeviceInfo) (h : Streams) :
  let h' := (getCameras development gum enumerate h).2 in
  (∀ r ts, h !! r = Some ts → h' !! r = Some ts)
  ∧ (∀ r ts, h' !! r = Some ts → h !! r = None →
       Forall (λ t, kind t = VideoTrack → live t = false) ts).
Proof.
  unfold getCameras, ensureAccess.
  destruct gum as [e|tracks]; simpl.
  - destruct (bool_decide _ && _); simpl; split; [done|congruence|done|congruence].
  - pose proof (CameraStreamFacts.fresh_lookup h) as Hf.
    assert (H : ∀ h1 : Streams, h1 = <[fresh (dom h) := stop_video_tracks tracks]> h →
      (∀ r ts, h !! r = Some ts → h1 !! r = Some ts)
      ∧ (∀ r ts, h1 !! r = Some ts → h !! r = None →
           Forall (λ t, kind t = VideoTrack → live t = false) ts)).
    { intros h1 ->. split.
      - intros r ts Hr. rewrite lookup_insert_ne; [done|]. congruence.
      - intros r ts Hr Hn. destruct (decide (r = fresh (dom h))) as [->|Hne].
        + rewrite lookup_insert_eq in Hr. injection Hr as <-.
          apply CameraStreamFacts.stop_video_tracks_dead.
        + rewrite lookup_insert_ne in Hr by done. congruence. }
    destruct enumerate; simpl; by apply H.
Qed.

(** X8.  [getBackCamera(options)] resolves to null exactly when the stream
    has no video track (the devices are then not listed); otherwise to
    the devices whose identifier is the one in the settings of the first
    video track, in the order of the listing. *)
Theorem getBackCamera_result
    (tracks : list (MediaStreamTrack * option string))
    (enumerate : JsError + list MediaDeviceInfo) (h : Streams) :
  match (getBackCamera (inr tracks) enumerate h).1 with
  | Resolved None => getVideoTracks tracks.*1 = []
  | Resolved (Some cams) =>
      ∃ t rest devices,
        filter (λ t, kind t.1 = VideoTrack) tracks = t :: rest
        ∧ enumerate = inr devices
        ∧ Forall (λ c, Some (id c) = t.2 ∧ _stream c = None) cams
        ∧ id <$> cams
          = filter (λ i, Some i = t.2) (deviceId <$> devices)
  | Rejected t =>
      getVideoTracks tracks.*1 ≠ [] ∧ ∃ e, enumerate = inl e ∧ t = Rethrown e
  end.
Proof.
  assert (Hv : getVideoTracks tracks.*1
               = (filter (λ t, kind t.1 = VideoTrack) tracks).*1).
  { unfold getVideoTracks. induction tracks as [|[t d] l IH]; [done|].
    rewrite fmap_cons, !filter_cons. simpl.
    destruct (decide (kind t = VideoTrack)); simpl; by rewrite IH. }
  unfold getBackCamera. rewrite Hv.
  destruct (filter _ tracks) as [|t rest]; simpl; [done|].
  destruct enumerate as [e|devices]; simpl; [by split; [|exists e]|].
  exists t, rest, devices. split_and!; try done.
  - apply Forall_fmap, Forall_forall. intros d Hd. simpl.
    apply list_elem_of_filter in Hd as [Hd _]. done.
  - clear. induction devices as [|d l IH]; [done|].
    rewrite fmap_cons, !filter_cons.
    destruct (decide (Some (deviceId d) = t.2)); rewrite ?fmap_cons; simpl;
      by rewrite IH.
Qed.

(** X9.  [getBackCamera(options)] never stops the stream it opens and hands it
    to nobody: its tracks are in the store as they were obtained, under a
    reference no camera of the result holds.  A failure is passed on as
    it is, never as a [MediaError]. *)
Theorem getBackCamera_keeps_stream_open
    (gum : JsError + list (MediaStreamTrack * option string))
    (enumerate : JsError + list MediaDeviceInfo) (h : Streams) :
  let '(p, h') := getBackCamera gum enumerate h in
  (∀ type inner, p ≠ Rejected (MediaError type inner))
  ∧ match gum with
    | inl e => p = Rejected (Rethrown e) ∧ h' = h
    | inr tracks =>
        h !! fresh (dom h) = None
        ∧ h' = <[fresh (dom h) := tracks.*1]> h
        ∧ ∀ cams, p = Resolved (Some cams) →
                  Forall (λ c, _stream c = None) cams
    end.
Proof.
  unfold getBackCamera. destruct gum as [e|tracks]; [done|].
  pose proof (CameraStreamFacts.fresh_lookup h) as Hf.
  destruct (filter _ tracks) as [|t rest]; [by split_and!|].
  destruct enumerate as [e|devices]; [by split_and!|].
  split_and!; try done. intros cams [= <-].
  apply Forall_fmap, Forall_forall. done.
Qed.

End CameraStaticsFacts.

(* ================================================================== *)
(** * Analyzer: the copy loop, the decoder's callback, the geometry *)
(* ================================================================== *)

Module AnalyzerRunFacts.
Import Analyzer AnalyzerRuns.
Open Scope Z_scope.

Lemma every_fourth_lookup (data : list Z) : ∀ j : nat,
  every_fourth data !! j = data !! (4 * j)%nat.
Proof.
  assert (H : ∀ n data, (length data ≤ n)%nat → ∀ j : nat,
            every_fourth data !! j = data !! (4 * j)%nat);
    [|by apply (H (length data))].
  clear data. induction n as [|n IH]; intros data Hn j.
  { destruct data; [done|]. simpl in Hn. lia. }
  destruct data as [|a [|b [|c [|d rest]]]].
  - done.
  - destruct j as [|j]; [done|]. by rewrite !lookup_ge_None_2 by (simpl; lia).
  - destruct j as [|j]; [done|]. by rewrite !lookup_ge_None_2 by (simpl; lia).
  - destruct j as [|j]; [done|]. by rewrite !lookup_ge_None_2 by (simpl; lia).
  - destruct j as [|j]; [done|].
    change (every_fourth (a :: b :: c :: d :: rest))
      with (a :: every_fourth rest).
    replace (4 * S j)%nat with (S (S (S (S (4 * j))))) by lia. simpl.
    apply IH. simpl in Hn. lia.
Qed.

Lemma write_bytes_lookup (bytes : list Z) : ∀ base (heap : gmap Z Z) k,
  write_bytes base bytes heap !! k
  = if bool_decide (base ≤ k < base + Z.of_nat (length bytes))
    then bytes !! Z.to_nat (k - base) else heap !! k.
Proof.
  induction bytes as [|b rest IH]; intros base heap k; simpl.
  - rewrite bool_decide_eq_false_2 by lia. done.
  - rewrite IH. repeat case_bool_decide; try lia.
    + replace (Z.to_nat (k - base)) with (S (Z.to_nat (k - (base + 1)))) by lia.
      done.
    + assert (k = base) as -> by lia. rewrite lookup_insert_eq.
      by replace (base - base) with 0 by lia.
    + rewrite lookup_insert_ne by lia. done.
Qed.

(** X10.  The value of [window.zxDecodeResult] after the decoder has reported
    the parts of one result, the first with index 0 and the others with
    later indices: the parts put together, whatever the global held. *)
Theorem decodeCallback_joins_parts (first : string) (rest : list (Z * string))
    (g : option string) :
  Forall (λ c, c.1 ≠ 0) rest →
  foldl (λ g c, decodeCallback c.1 c.2 g) g ((0, first) :: rest)
  = Some (foldl (λ s c, s +:+ c.2) first rest).
Proof.
  intros Hrest. simpl. unfold decodeCallback at 2. simpl.
  generalize first. clear first.
  induction Hrest as [|[i s] rest Hi _ IH]; intros first; [done|].
  simpl in *. unfold decodeCallback at 2.
  rewrite decide_False by done. simpl. apply IH.
Qed.

Lemma decodeCallback_joins_parts_witness :
  foldl (λ g c, decodeCallback c.1 c.2 g) (Some "old") [(0, "ab"); (1, "cd")]
  = Some "abcd".
Proof.
  apply (decodeCallback_joins_parts "ab" [(1, "cd")] (Some "old")).
  by repeat constructor.
Defined.

Section Runs.
Context {Picture : Type}.
Variable _resize : Z → Z → Z.
Variable _decode_qr : gmap Z Z → Z * list (Z * string).
Variable getImageData : Canvas Picture → Z → Z → list Z.

Local Abbreviation analyze := (analyze _resize _decode_qr getImageData).
Local Abbreviation attempts := (attempts _resize _decode_qr getImageData).

Lemma analyze_geometry video (a : Analyzer Picture) rt :
  truthy (imageBuffer a) = true →
  geometry (analyze video a rt).1.1 = geometry a.
Proof.
  intros Hb. unfold Analyzer.analyze. case_bool_decide; [done|].
  rewrite Hb. simpl. destruct (_decode_qr _) as [err calls].
  case_bool_decide; [done|]. by destruct (foldl _ _ _).
Qed.

(** X11.  Once the image buffer is allocated, no later attempt changes the
    geometry: buffer address, sensor rectangle, canvas size and drawing
    context stay as they are, whatever sizes the video reports later. *)
Theorem geometry_is_kept (videos : list (Video Picture))
    (a : Analyzer Picture) (rt : Runtime) :
  truthy (imageBuffer a) = true →
  geometry (attempts videos (a, rt)).1 = geometry a.
Proof.
  revert a rt. induction videos as [|v videos IH]; intros a rt Hb; [done|].
  simpl. destruct (Analyzer.analyze _ _ _ v a rt) as [[a' rt'] r] eqn:Ha.
  simpl. pose proof (analyze_geometry v a rt Hb) as Hg. rewrite Ha in Hg.
  simpl in Hg. rewrite IH; [done|].
  unfold geometry in Hg. injection Hg as Hi _. rewrite Hi. done.
Qed.

(** X12.  While the allocator returns the null address, the analyzer never
    gets to decode: every attempt on a video with a frame sets the
    geometry up again, and neither the heap nor the decoder's result is
    touched. *)
Theorem null_buffer_never_decodes (videos : list (Video Picture))
    (a : Analyzer Picture) (rt : Runtime) :
  (∀ w h, _resize w h = 0) → truthy (imageBuffer a) = false →
  (attempts videos (a, rt)).2 = rt
  ∧ truthy (imageBuffer (attempts videos (a, rt)).1) = false.
Proof.
  intros Hr. revert a rt.
  induction videos as [|v videos IH]; intros a rt Hb; [done|].
  simpl. unfold Analyzer.analyze. case_bool_decide; simpl; [by apply IH|].
  rewrite Hb. simpl. apply IH. simpl. rewrite Hr. done.
Qed.

(** X13.  A decoding attempt copies every fourth byte of the image data, from
    the first one on, to consecutive addresses from the image buffer on,
    and writes the heap nowhere else. *)
Theorem analyze_copies_first_channel (video : Video Picture)
    (a : Analyzer Picture) (rt : Runtime) (b : Z) :
  videoWidth video ≠ 0 → imageBuffer a = Some b → b ≠ 0 →
  let data := getImageData
                {| cwidth := cwidth (canvas a); cheight := cheight (canvas a);
                   drawn := Some (picture video, default 0 (sensorLeft a),
                                  default 0 (sensorTop a),
                                  default 0 (sensorWidth a),
                                  default 0 (sensorHeight a)) |}
                (default 0 (sensorWidth a)) (default 0 (sensorHeight a)) in
  let heap := HEAPU8 (analyze video a rt).1.2 in
  (∀ j : nat, (4 * j < length data)%nat →
     heap !! (b + Z.of_nat j) = data !! (4 * j)%nat)
  ∧ (∀ k, k < b ∨ b + Z.of_nat (length (every_fourth data)) ≤ k →
     heap !! k = HEAPU8 rt !! k)
  ∧ (4 * length (every_fourth data) < length data + 4)%nat.
Proof.
  intros Hw Hb Hnz data heap.
  assert (Hheap : heap = write_bytes b (every_fourth data) (HEAPU8 rt)).
  { subst heap. unfold Analyzer.analyze.
    rewrite bool_decide_eq_false_2 by done.
    rewrite Hb. simpl. rewrite bool_decide_eq_true_2 by done. simpl.
    fold data. destruct (_decode_qr _) as [err calls].
    case_bool_decide; [done|]. by destruct (foldl _ _ _). }
  assert (Hlen : ∀ j : nat, (j < length (every_fourth data))%nat
                            ↔ (4 * j < length data)%nat).
  { intros j. rewrite <- !lookup_lt_is_Some, every_fourth_lookup. done. }
  rewrite Hheap. split_and!.
  - intros j Hj. rewrite write_bytes_lookup.
    rewrite bool_decide_eq_true_2 by (apply Hlen in Hj; lia).
    replace (Z.to_nat (b + Z.of_nat j - b)) with j by lia.
    apply every_fourth_lookup.
  - intros k Hk. rewrite write_bytes_lookup.
    rewrite bool_decide_eq_false_2 by lia. done.
  - pose proof (Hlen (length (every_fourth data) - 1)%nat) as H. lia.
Qed.

End Runs.

Lemma geometry_is_kept_witness :
  geometry (attempts (λ _ _, 64) (λ _, (1, [])) (λ _ _ _, [])
              [mkVideo 640 480 tt; mkVideo 0 0 tt; mkVideo 320 240 tt]
              (established (λ _ _, 64) 640 480, mkRuntime ∅ None 0)).1
  = geometry (established (Picture:=unit) (λ _ _, 64) 640 480).
Proof.
  apply (geometry_is_kept (λ _ _, 64) (λ _, (1, [])) (λ _ _ _, [])
           [mkVideo 640 480 tt; mkVideo 0 0 tt; mkVideo 320 240 tt]
           (established (λ _ _, 64) 640 480) (mkRuntime ∅ None 0)).
  reflexivity.
Defined.

Lemma null_buffer_never_decodes_witness :
  (attempts (Picture:=unit) (λ _ _, 0) (λ _, (0, [(0, "x")])) (λ _ _ _, [1; 2; 3; 4])
     [mkVideo 640 480 tt; mkVideo 640 480 tt] (new, mkRuntime ∅ None 0)).2
  = mkRuntime ∅ None 0
  ∧ truthy (imageBuffer
      (attempts (Picture:=unit) (λ _ _, 0) (λ _, (0, [(0, "x")])) (λ _ _ _, [1; 2; 3; 4])
         [mkVideo 640 480 tt; mkVideo 640 480 tt] (new, mkRuntime ∅ None 0)).1)
    = false.
Proof.
  apply (null_buffer_never_decodes (Picture:=unit) (λ _ _, 0)
           (λ _, (0, [(0, "x")])) (λ _ _ _, [1; 2; 3; 4])
           [mkVideo 640 480 tt; mkVideo 640 480 tt] new (mkRuntime ∅ None 0)).
  - reflexivity.
  - reflexivity.
Defined.

Lemma analyze_copies_first_channel_witness :
  HEAPU8 (analyze (Picture:=unit) (λ _ _, 64) (λ _, (1, []))
            (λ _ _ _, [10; 11; 12; 13; 20; 21; 22; 23])
            (mkVideo 2 1 tt) (established (λ _ _, 64) 2 1)
            (mkRuntime ∅ None 0)).1.2 !! 65
  = Some 20.
Proof.
  pose proof (analyze_copies_first_channel (Picture:=unit) (λ _ _, 64)
    (λ _, (1, [])) (λ _ _ _, [10; 11; 12; 13; 20; 21; 22; 23])
    (mkVideo 2 1 tt) (established (λ _ _, 64) 2 1) (mkRuntime ∅ None 0) 64
    ltac:(done) ltac:(reflexivity) ltac:(done)) as (H & _).
  apply (H 1%nat). simpl. lia.
Defined.

End AnalyzerRunFacts.

(* ================================================================== *)
(** * Capture sessions: what every run keeps *)
(* ================================================================== *)

Module SessionFacts.
Import ActiveScan SessionInvariants.
Open Scope Z_scope.

Section Facts.
Context {A V Canvas : Type}.
Variable analyze : V → A → A * option (string * Canvas).
Variable toDataURL : Canvas → string.

Local Abbreviation on_result := (ActiveScan.on_result toDataURL).
Local Abbreviation scan := (ActiveScan.scan analyze toDataURL).
Local Abbreviation step := (ActiveScan.step analyze toDataURL).
Local Abbreviation run := (ActiveScan.run analyze toDataURL).

Lemma invariant_run (P : Session → Prop) :
  (∀ i a s, P s → P (step i (a, s)).2) →
  ∀ inputs a s, P s → P (run inputs (a, s)).2.
Proof.
  intros Hstep. induction inputs as [|i inputs IH]; intros a s Hs; [done|].
  rewrite ActiveScanFacts.run_cons. pose proof (Hstep i a s Hs) as H.
  destruct (ActiveScan.step analyze toDataURL i (a, s)) as [a' s'].
  by apply IH.
Qed.

Lemma one_frame_step i a s : one_frame s → one_frame (step i (a, s)).2.
Proof.
  unfold one_frame. destruct s as [[ac sp fc ci rp lr rt] fr nt tm em at_].
  simpl. intros H. destruct i as [v|id|dt|]; simpl.
  - destruct fr as [|fr]; [done|]. unfold ActiveScan.scan. simpl.
    destruct ac; simpl; [|lia]. injection H as ->.
    destruct (decide _); [done|]. destruct (analyze v a) as [a' [[r cv]|]]; simpl;
      [|done].
    match goal with
    | |- context [ActiveScan.on_result _ r cv ?s] =>
        pose proof (ActiveScanFacts.on_result_keeps toDataURL r cv s)
          as (Ha & _ & _ & Hf & _)
    end.
    by rewrite Ha, Hf.
  - destruct (tm !! id) as [[w t]|]; [|done].
    destruct (decide _); [|done]. by destruct t.
  - done.
  - destruct ac; simpl in *; lia.
Qed.

(** X14.  A session that was started keeps exactly one frame callback pending
    for as long as it runs, and at most one once it is stopped: the loop
    never doubles and never dies by itself. *)
Theorem one_frame_callback_pending (ci : bool) (N rp : Z) (a : A)
    (inputs : list (Input (V:=V))) :
  one_frame (run inputs (a, start (new ci N rp))).2.
Proof. apply invariant_run; [apply one_frame_step|done]. Qed.

Lemma never_due_step i a s :
  never_due s → (step i (a, s)).1 = a ∧ never_due (step i (a, s)).2.
Proof.
  unfold never_due. destruct s as [[ac sp fc ci rp lr rt] fr nt tm em at_].
  simpl. intros (Hp & -> & -> & ->). destruct i as [v|id|dt|]; simpl.
  - destruct fr as [|fr]; [done|]. unfold ActiveScan.scan. simpl.
    destruct ac; simpl; [|done].
    rewrite decide_True by lia. simpl. split_and!; try done; lia.
  - by rewrite lookup_empty.
  - by rewrite fmap_empty.
  - done.
Qed.

(** X15.  With a [scanPeriod] that is not positive the frame counter never
    equals the period: the session runs its loop but never calls the
    analyzer, sets no timer and emits nothing. *)
Theorem nonpositive_period_never_scans (ci : bool) (N rp : Z) (a : A)
    (inputs : list (Input (V:=V))) :
  N ≤ 0 →
  (run inputs (a, start (new ci N rp))).1 = a
  ∧ attempts (run inputs (a, start (new ci N rp))).2 = 0%nat
  ∧ timers (run inputs (a, start (new ci N rp))).2 = ∅
  ∧ emitted (run inputs (a, start (new ci N rp))).2 = [].
Proof.
  intros HN.
  assert (H : ∀ inputs a s, never_due s →
            (run inputs (a, s)).1 = a ∧ never_due (run inputs (a, s)).2).
  { clear. induction inputs as [|i inputs IH]; intros a s Hs; [done|].
    rewrite ActiveScanFacts.run_cons.
    pose proof (never_due_step i a s Hs) as [H1 H2].
    destruct (ActiveScan.step analyze toDataURL i (a, s)) as [a' s'].
    simpl in H1. subst a'. by apply IH. }
  destruct (H inputs a (start (new ci N rp))) as (H1 & _ & H2 & H3 & H4);
    [|done].
  unfold never_due. simpl. split_and!; done.
Qed.

Lemma emissions_reported_step i a s :
  emissions_reported analyze toDataURL s →
  emissions_reported analyze toDataURL (step i (a, s)).2.
Proof.
  unfold emissions_reported.
  destruct s as [[ac sp fc ci rp lr rt] fr nt tm em at_].
  simpl. intros [He Ht]. destruct i as [v|id|dt|]; simpl.
  - destruct fr as [|fr]; [done|]. unfold ActiveScan.scan. simpl.
    destruct ac; simpl; [|done].
    destruct (decide _); [done|].
    destruct (analyze v a) as [a' [[r cv]|]] eqn:Hv; simpl; [|done].
    unfold ActiveScan.on_result. simpl.
    destruct (decide (Some r = lr)); simpl; [done|].
    destruct rt as [t|]; simpl.
    all: split; [done|].
    all: apply map_Forall_insert_2;
      [simpl; exists v, a, a', cv; split; [done|]; by destruct ci|].
    all: apply map_Forall_insert_2; [done|].
    + by apply map_Forall_delete.
    + done.
  - destruct (tm !! id) as [[w t]|] eqn:Hid; [|done].
    destruct (decide _); [|done].
    pose proof (Ht id (w, t) Hid) as Hr. simpl in Hr.
    destruct t as [|r img]; simpl.
    + split; [done|]. by apply map_Forall_delete.
    + split; [by constructor|]. by apply map_Forall_delete.
  - split; [done|]. intros id t. rewrite lookup_fmap.
    destruct (tm !! id) as [t0|] eqn:Hid; simpl; [|done].
    intros [= <-]. simpl. apply (Ht id t0 Hid).
  - done.
Qed.

(** X16.  A session emits nothing of its own making: the payload of every
    emission, delivered or still queued, is one the analyzer reports,
    and its image is the data URL of the canvas of that report when
    [captureImage] is set and null when it is not. *)
Theorem emissions_are_reports (ci : bool) (N rp : Z) (a : A)
    (inputs : list (Input (V:=V))) :
  emissions_reported analyze toDataURL (run inputs (a, start (new ci N rp))).2
  ∧ captureImage (self (run inputs (a, start (new ci N rp))).2) = ci.
Proof.
  apply (invariant_run
    (λ s, emissions_reported analyze toDataURL s ∧ captureImage (self s) = ci)).
  - intros i a' s [H1 H2]. split; [by apply emissions_reported_step|].
    clear H1. destruct s as [[ac sp fc ci' rp' lr rt] fr nt tm em at_].
    simpl in *. subst ci'. destruct i as [v|id|dt|]; simpl; try done.
    + destruct fr as [|fr]; [done|]. unfold ActiveScan.scan. simpl.
      destruct ac; simpl; [|done]. destruct (decide _); [done|].
      destruct (analyze v a') as [a'' [[r cv]|]]; simpl; [|done].
      unfold ActiveScan.on_result. simpl.
      destruct (decide _); [done|]. by destruct rt.
    + destruct (tm !! id) as [[w t]|]; [|done].
      destruct (decide _); [|done]. by destruct t.
  - split; [|done]. split; [constructor|]. simpl. apply map_Forall_empty.
Qed.

(** X17.  A session never has two timers pending that clear [lastResult]: the
    only one is the timer recorded in [refractoryTimeout], each new one
    replacing the one before. *)
Theorem one_refractory_timer (ci : bool) (N rp : Z) (a : A)
    (inputs : list (Input (V:=V))) (i j d1 d2 : Z) :
  let s := (run inputs (a, start (new ci N rp))).2 in
  timers s !! i = Some (d1, ClearLastResult) →
  timers s !! j = Some (d2, ClearLastResult) →
  i = j ∧ d1 = d2 ∧ refractoryTimeout (self s) = Some i.
Proof.
  intros s Hi Hj.
  pose proof (ActiveScanFacts.timers_ok_run analyze toDataURL inputs a _
                (ActiveScanFacts.timers_ok_start ci N rp)) as (_ & H & _).
  fold s in H. pose proof (H i d1 Hi) as H1. pose proof (H j d2 Hj) as H2.
  assert (i = j) as -> by congruence. split_and!; [done| |done]. congruence.
Qed.

(** X18.  The frame callback never delivers an emission itself: what [scan]
    emits is set aside with a timer of no delay. *)
Theorem scan_defers_emission (v : V) (a : A) (s : Session) :
  emitted (scan v a s).2 = emitted s
  ∧ ∀ id t, timers (scan v a s).2 !! id = Some t → is_emit t.2 = true →
            timers s !! id = Some t ∨ t.1 = 0.
Proof.
  destruct s as [[ac sp fc ci rp lr rt] fr nt tm em at_].
  unfold ActiveScan.scan. simpl. destruct ac; simpl; [|by split; [|left]].
  destruct (decide _); simpl; [by split; [|left]|].
  destruct (analyze v a) as [a' [[r cv]|]]; simpl; [|by split; [|left]].
  unfold ActiveScan.on_result. simpl.
  destruct (decide (Some r = lr)); simpl; [by split; [|left]|].
  destruct rt as [t0|]; simpl.
  all: split; [done|]; intros id t Ht He.
  all: destruct (decide (id = nt + 1)) as [->|Hne];
    [rewrite lookup_insert_eq in Ht; injection Ht as <-; by right|].
  all: rewrite lookup_insert_ne in Ht by done.
  all: destruct (decide (id = nt)) as [->|Hne'];
    [rewrite lookup_insert_eq in Ht; injection Ht as <-; done|].
  all: rewrite lookup_insert_ne in Ht by done; left.
  - by apply lookup_delete_Some in Ht as [_ Ht].
  - done.
Qed.

End Facts.

Lemma nonpositive_period_never_scans_witness :
  attempts (ActiveScan.run oracle no_image
              [Frame (Some "P"); Frame (Some "Q"); Advance 10; Frame None]
              (tt, start (new false (-1) 5000))).2 = 0%nat.
Proof.
  apply (nonpositive_period_never_scans oracle no_image false (-1) 5000 tt
           [Frame (Some "P"); Frame (Some "Q"); Advance 10; Frame None]).
  lia.
Defined.

Lemma one_refractory_timer_witness :
  timers decoded_P.2 !! 1 = Some (5000, ClearLastResult)
  ∧ refractoryTimeout (self decoded_P.2) = Some 1.
Proof.
  split; [reflexivity|].
  apply (one_refractory_timer oracle no_image false 1 5000 tt
           [Frame (Some "P")] 1 1 5000 5000); reflexivity.
Defined.

End SessionFacts.

(* ================================================================== *)
(** * Scanner: sessions, settings, stop() and the camera *)
(* ================================================================== *)

Module ScannerOwnershipFacts.
Import StateMachine Scanner ScannerInvariants.

(** Runs the steps of a goal one at a time, innermost first, on explicit
    worlds; [Hstart] says what the camera's [start] returns. *)
Ltac eval_steps Hstart :=
  repeat match goal with
  | |- context [@step ?C ?D ?E ?cd ?w ?i] =>
      lazymatch w with
      | context [@step] => fail
      | _ => idtac
      end;
      let x := eval lazy in (@step C D E cd w i) in
      let Hx := fresh "Hx" in
      assert (Hx : @step C D E cd w i = x) by (lazy; reflexivity);
      rewrite ?Hstart in Hx;
      match type of Hx with
      | _ = ?y => let y' := eval lazy in y in
                  change (@step C D E cd w i = y') in Hx
      end;
      rewrite Hx; clear Hx
  end.

Section Facts.
Context {Cam Dev Err : Type}.

Local Abbreviation World := (World Cam Dev Err).
Local Abbreviation Input := (Input Cam Dev Err).

Lemma owned_new `{!CameraDevice Cam Dev} opts vis dev :
  owned (new opts vis dev : World).
Proof. unfold owned, owned_fields. by vm_compute. Qed.

Lemma owned_step {CD : CameraDevice Cam Dev} (w : World) (i : Input) :
  consistent w → owned w → owned (step w i).
Proof.
  destruct CD as [cstart cstop].
  destruct w as [sc ca sp rp ci bg vs [cur tr] vis em de aw dv re].
  unfold consistent, owned at 1. unfold consistent_fields, owned_fields. simpl.
  intros (Hn & Hp & _ & _) (Hs & Ht & Hv & Hr).
  destruct tr as [[pn pf pt pa]|]; simpl in Hp;
    [destruct Hp as (-> & -> & -> & Hcur)|].
  all: destruct cur; try done; try (by destruct Hcur).
  all: destruct sc as [s|]; [destruct Hs as [Hs Hrun]; try discriminate Hs|];
    try done.
  all: try (assert (vs = "") as -> by (by apply Hv)).
  all: clear Hv; try subst aw.
  all: try (destruct aw as [|[|aw]]; [| |lia]).
  all: destruct ca; (destruct i as [cam| |cam|name cam|state| |reply|f];
  [ destruct vis, bg, cam
  | 
  | destruct vis, bg, cam
  | destruct name; [ | destruct vis, bg, cam | | destruct vis, bg, cam | ]
  | destruct state, bg
  | destruct de; [ | destruct vis, bg ]
  | destruct reply
  | ]);
  unfold owned;
  (match goal with
   | |- owned_fields ?a ?b ?c ?d ?e ?f ?g ?h ?k =>
       let a' := eval lazy in a in
       let b' := eval lazy in b in
       let c' := eval lazy in c in
       let d' := eval lazy in d in
       let e' := eval lazy in e in
       let f' := eval lazy in f in
       let g' := eval lazy in g in
       let h' := eval lazy in h in
       let k' := eval lazy in k in
       change (owned_fields a' b' c' d' e' f' g' h' k')
   end);
  ScannerFacts.split_start cstart;
  unfold owned_fields; simpl;
  split_and!;
  first [assumption | reflexivity | discriminate | lia | done
        | by constructor
        | by (unfold running; simpl; split_and!) ].
Qed.

Lemma settings_step {CD : CameraDevice Cam Dev} (w : World) (i : Input) :
  consistent w →
  (scanPeriod (step w i), refractoryPeriod (step w i),
   captureImage (step w i), backgroundScan (step w i))
  = (scanPeriod w, refractoryPeriod w, captureImage w, backgroundScan w).
Proof.
  destruct CD as [cstart cstop].
  destruct w as [sc ca sp rp ci bg vs [cur tr] vis em de aw dv re].
  unfold consistent, consistent_fields. simpl.
  intros (Hn & Hp & _ & _).
  destruct tr as [[pn pf pt pa]|]; simpl in Hp;
    [destruct Hp as (-> & -> & -> & Hcur)|].
  all: destruct cur; try done; try (by destruct Hcur).
  all: destruct ca, sc; (destruct i as [cam| |cam|name cam|state| |reply|f];
  [ destruct vis, bg, cam
  | 
  | destruct vis, bg, cam
  | destruct name; [ | destruct vis, bg, cam | | destruct vis, bg, cam | ]
  | destruct state, bg
  | destruct de; [ | destruct vis, bg ]
  | destruct aw; [ | destruct reply ]
  | ]);
  (match goal with
   | |- (?a, ?b, ?c, ?d) = ?r =>
       let a' := eval lazy in a in
       let b' := eval lazy in b in
       let c' := eval lazy in c in
       let d' := eval lazy in d in
       change ((a', b', c', d') = r)
   end);
  ScannerFacts.split_start cstart;
  reflexivity.
Qed.

Lemma reachable {CD : CameraDevice Cam Dev} (P : World → Prop) :
  (∀ w i, consistent w → P w → P (step w i)) →
  ∀ inputs w, consistent w → P w → P (run inputs w).
Proof.
  intros Hstep. induction inputs as [|i inputs IH]; intros w Hc Hw; [done|].
  simpl. apply IH; [by apply ScannerFacts.consistent_step|by apply Hstep].
Qed.

End Facts.

(** ** The scanner with its sessions running *)

Section Sessions.
Context {Cam Dev Err A V Canvas : Type}.
Variable analyze : V → A → A * option (string * Canvas).
Variable toDataURL : Canvas → string.

Local Abbreviation World := (World Cam Dev Err).
Local Abbreviation tick_input := (ScannerSessions.tick_input (V:=V)).

(** A frame callback, a timer or the passing of time leaves a running
    session running, with its settings. *)
Lemma running_tick ci sp rp t a s :
  running ci sp rp s →
  running ci sp rp (ActiveScan.step analyze toDataURL (tick_input t) (a, s)).2.
Proof.
  unfold running.
  destruct s as [[ac sp0 fc ci0 rp0 lr rt] fr nt tm em at_]. simpl.
  intros (-> & -> & -> & -> & ->). destruct t as [v|id|dt]; simpl.
  - unfold ActiveScan.scan. simpl. destruct (decide _); [done|].
    destruct (analyze v a) as [a' [[r cv]|]]; simpl; [|done].
    unfold ActiveScan.on_result. simpl.
    destruct (decide _); [done|]. by destruct rt.
  - destruct (tm !! id) as [[w t]|]; [|done].
    destruct (decide _); [|done]. by destruct t.
  - done.
Qed.

(** A stopped session stays stopped. *)
Lemma stopped_tick t a s :
  ActiveScan.active (ActiveScan.self s) = false →
  ActiveScan.active (ActiveScan.self
    (ActiveScan.step analyze toDataURL (tick_input t) (a, s)).2) = false.
Proof.
  intros Hs.
  apply (ActiveScanFacts.halted_step analyze toDataURL s (tick_input t) a s).
  unfold ActiveScan.halted. split_and!; done.
Qed.

Lemma composed_step {CD : CameraDevice Cam Dev} (st : A * World)
    (i : ScannerSessions.Input (Cam:=Cam) (Dev:=Dev) (Err:=Err) (V:=V)) :
  consistent st.2 ∧ owned st.2 →
  consistent (ScannerSessions.step analyze toDataURL st i).2
  ∧ owned (ScannerSessions.step analyze toDataURL st i).2.
Proof.
  destruct st as [a w]. simpl. intros [Hc Ho].
  destruct i as [i|t|n t]; simpl.
  - split; [by apply ScannerFacts.consistent_step|by apply owned_step].
  - destruct (_scan w) as [s|] eqn:Hs; [|done]. simpl. split; [done|].
    unfold owned, owned_fields in *. simpl. rewrite Hs in Ho.
    destruct Ho as ([Hcur Hrun] & Ht & Hv & Hr).
    split_and!; try done. by apply running_tick.
  - destruct (retired w !! n) as [s|] eqn:Hn; [|done]. simpl. split; [done|].
    unfold owned, owned_fields in *. simpl.
    destruct Ho as (Hsc & Ht & Hv & Hr).
    split_and!; try done.
    apply Forall_insert; [done|]. apply stopped_tick.
    by apply (Forall_lookup_1 _ _ _ _ Hr Hn).
Qed.

(** X19.  Whatever is done to a scanner after its construction, and
    whatever the browser does to its capture sessions in between (frame
    callbacks, timers, time passing):
    - the scanner holds a capture session exactly when its machine is in
      ['active'], and that session is running, with the scanner's
      [captureImage], [scanPeriod] and [refractoryPeriod], and with one
      frame callback pending;
    - at most one camera callback is outstanding, and none unless a
      transition is under way;
    - outside ['active'] the video has no source;
    - every session the scanner has dropped is stopped. *)
Theorem session_ownership {CD : CameraDevice Cam Dev}
    (opts : Options) (vis : Visibility) (dev : Dev) (a0 : A)
    (inputs : list (ScannerSessions.Input
                      (Cam:=Cam) (Dev:=Dev) (Err:=Err) (V:=V))) :
  owned (ScannerSessions.run analyze toDataURL inputs
           (a0, new opts vis dev)).2.
Proof.
  assert (H : ∀ inputs (st : A * World),
            consistent st.2 ∧ owned st.2 →
            consistent (ScannerSessions.run analyze toDataURL inputs st).2
            ∧ owned (ScannerSessions.run analyze toDataURL inputs st).2).
  { clear inputs. induction inputs as [|i inputs IH]; intros st Hst; [done|].
    simpl. by apply IH, composed_step. }
  apply H. simpl. split.
  - apply ScannerFacts.consistent_new.
  - apply owned_new.
Qed.

End Sessions.

Section Facts.
Context {Cam Dev Err : Type}.

Local Abbreviation World := (World Cam Dev Err).
Local Abbreviation Input := (Input Cam Dev Err).

(** X20.  The four settings are read once, by the constructor, with [||]: a
    [scanPeriod] of 0 becomes 1 and a [refractoryPeriod] of 0 becomes
    5000, so neither is ever 0; nothing done to the scanner afterwards
    changes them. *)
Theorem settings_are_fixed {CD : CameraDevice Cam Dev}
    (opts : Options) (vis : Visibility) (dev : Dev) (inputs : list Input) :
  let w : World := run inputs (new opts vis dev) in
  scanPeriod w = or_number (opt_scanPeriod opts) 1
  ∧ refractoryPeriod w = or_number (opt_refractoryPeriod opts) 5000
  ∧ captureImage w = default false (opt_captureImage opts)
  ∧ backgroundScan w = default false (opt_backgroundScan opts)
  ∧ scanPeriod w ≠ 0%Z ∧ refractoryPeriod w ≠ 0%Z.
Proof.
  intros w.
  assert (H : (scanPeriod w, refractoryPeriod w, captureImage w, backgroundScan w)
              = (or_number (opt_scanPeriod opts) 1,
                 or_number (opt_refractoryPeriod opts) 5000,
                 default false (opt_captureImage opts),
                 default false (opt_backgroundScan opts))).
  { subst w.
    apply (reachable (λ w, (scanPeriod w, refractoryPeriod w, captureImage w,
                            backgroundScan w) = _)).
    - intros w i Hc Hw. by rewrite settings_step.
    - apply ScannerFacts.consistent_new.
    - reflexivity. }
  injection H as -> -> -> ->. split_and!; try done.
  - unfold or_number. destruct (opt_scanPeriod opts) as [n|]; [|done].
    by destruct (decide (n = 0%Z)).
  - unfold or_number. destruct (opt_refractoryPeriod opts) as [n|]; [|done].
    by destruct (decide (n = 0%Z)).
Qed.

(** X21.  [stop()] never throws.  In ['stopped'], and while a transition is
    under way, it does nothing at all.  Otherwise the machine ends in
    ['stopped'] with no transition under way; and if it was in
    ['active'], the video source is cleared, the session is stopped and
    dropped, [stop()] is called on the scanner's camera, and one
    ['inactive'] is emitted; if it was not, nothing else changes. *)
Theorem stop_settles {CD : CameraDevice Cam Dev} (w : World) :
  current (_fsm w) ≠ none →
  let r := handle CallStop w in
  r.1 = Js.Returned tt
  ∧ if bool_decide (current (_fsm w) = stopped ∨ transition (_fsm w) ≠ None)
    then r.2 = w
    else
      _fsm r.2 = mkFsm stopped None
      ∧ _camera r.2 = _camera w
      ∧ if bool_decide (current (_fsm w) = active) then
          video_src r.2 = ""
          ∧ _scan r.2 = None
          ∧ retired r.2 = from_option (λ s, [ActiveScan.stop s]) [] (_scan w)
                          ++ retired w
          ∧ devices r.2 = from_option (λ c, camera_stop c (devices w))
                            (devices w) (_camera w)
          ∧ emitted r.2 = Inactive :: emitted w
        else
          r.2 = set__fsm (mkFsm stopped None) w.
Proof.
  destruct CD as [cstart cstop].
  destruct w as [sc ca sp rp ci bg vs [cur tr] vis em de aw dv re].
  simpl. intros Hn.
  destruct tr as [p|], cur; try done.
  all: destruct sc, ca; (split; [reflexivity|]); lazy;
    first [reflexivity | split_and!; reflexivity].
Qed.

(** X22.  A full cycle on a scanner at rest in ['stopped']: [start(camera)]
    calls [start] on that camera once; when the camera delivers its
    stream the scanner is active; [stop()] then calls [stop] on the same
    camera once, and the scanner has emitted ['active'] and then
    ['inactive'], holds no session and shows no video. *)
Theorem start_reply_stop_cycle {CD : CameraDevice Cam Dev} (w : World)
    (a : Cam) (url : string) (d1 : Dev) :
  current (_fsm w) = stopped → transition (_fsm w) = None →
  awaiting w = 0%nat →
  visibility w = visible ∨ backgroundScan w = true →
  camera_start a (devices w) = (d1, true) →
  let w1 := run [CallStart (Some a); CameraReply (inr url)] w in
  let w2 := step w1 CallStop in
  _fsm w1 = mkFsm active None
  ∧ devices w1 = d1
  ∧ video_src w1 = url
  ∧ _fsm w2 = mkFsm stopped None
  ∧ devices w2 = camera_stop a d1
  ∧ emitted w2 = Inactive :: Active :: emitted w
  ∧ _scan w2 = None
  ∧ video_src w2 = ""
  ∧ awaiting w2 = 0%nat.
Proof.
  destruct CD as [cstart cstop].
  destruct w as [sc ca sp rp ci bg vs [cur tr] vis em de aw dv re].
  cbn [current transition _fsm awaiting visibility backgroundScan devices
       camera_start].
  intros -> -> -> Hvis Hstart.
  assert (Hveto : bool_decide (vis ≠ visible) && negb bg = false).
  { destruct Hvis as [-> | ->]; [done|]. by rewrite andb_false_r. }
  destruct vis, bg; try discriminate Hveto; clear Hveto Hvis.
  all: destruct sc, ca; unfold run; cbn [foldl];
    eval_steps Hstart; split_and!; reflexivity.
Qed.

(** X23.  A camera assigned while the machine is in ['inactive'] and another
    camera is being acquired is only recorded.  When the acquisition
    succeeds the scanner is active on the stream of the first camera
    with the second one recorded, and [stop()] then calls [stop] on the
    recorded camera (on none if null was assigned): the camera that was
    started is not stopped. *)
Theorem reassigned_camera_is_not_stopped {CD : CameraDevice Cam Dev}
    (w : World) (a : Cam) (b : option Cam) (url : string) (d1 : Dev) :
  current (_fsm w) = inactive → transition (_fsm w) = None →
  awaiting w = 0%nat → _camera w = Some a →
  camera_start a (devices w) = (d1, true) →
  let w1 := run [VisibilityChange visible; RunDeferred; SetCamera b;
                 CameraReply (inr url)] w in
  let w2 := step w1 CallStop in
  _fsm w1 = mkFsm active None
  ∧ video_src w1 = url
  ∧ _camera w1 = b
  ∧ devices w1 = d1
  ∧ _fsm w2 = mkFsm stopped None
  ∧ devices w2 = from_option (λ c, camera_stop c d1) d1 b.
Proof.
  destruct CD as [cstart cstop].
  destruct w as [sc ca sp rp ci bg vs [cur tr] vis em de aw dv re].
  cbn [current transition _fsm awaiting _camera devices camera_start].
  intros -> -> -> -> Hstart.
  destruct bg, sc, b; unfold run; cbn [foldl];
    eval_steps Hstart; split_and!; reflexivity.
Qed.

(** X24.  [start(camera)] on a page that is not visible, with
    [backgroundScan] off: the activation is vetoed before [_enableScan]
    runs, so the camera is neither started nor recorded, and the machine
    rests in ['started'] with nothing emitted.  When the page becomes
    visible, the deferred activation has only the scanner's previous
    camera to use; if there is none, the scanner stays in ['started'] and
    the camera given to [start] is never started. *)
Theorem start_while_hidden_forgets_camera {CD : CameraDevice Cam Dev}
    (w : World) (a : Cam) :
  current (_fsm w) = stopped → transition (_fsm w) = None →
  visibility w ≠ visible → backgroundScan w = false → _camera w = None →
  let w1 := step w (CallStart (Some a)) in
  let w2 := run [VisibilityChange visible; RunDeferred] w1 in
  handle (CallStart (Some a)) w = (Js.Returned tt, set__fsm (mkFsm started None) w)
  ∧ _fsm w2 = mkFsm started None
  ∧ _camera w2 = None
  ∧ devices w2 = devices w
  ∧ emitted w2 = emitted w
  ∧ awaiting w2 = awaiting w
  ∧ _scan w2 = _scan w.
Proof.
  destruct CD as [cstart cstop].
  destruct w as [sc ca sp rp ci bg vs [cur tr] vis em de aw dv re].
  cbn [current transition _fsm visibility backgroundScan _camera devices
       emitted awaiting _scan].
  intros -> -> Hvis -> ->.
  pose proof (eq_refl 0%nat) as Hnone.
  destruct vis; [done| |];
    (split; [lazy; reflexivity|]);
    unfold run; cbn [foldl]; eval_steps Hnone; split_and!; reflexivity.
Qed.

End Facts.

Import CallbackCamera.

Lemma stop_settles_witness :
  current (_fsm acquiring) ≠ none
  ∧ step acquiring CallStop = acquiring.
Proof.
  split; [done|].
  exact (proj2 (stop_settles acquiring ltac:(done))).
Defined.

Lemma start_reply_stop_cycle_witness :
  devices (step (run [CallStart (Some 7%nat); CameraReply (inr "blob:7")]
                   (new (Err:=string) (mkOptions None None None None) visible []))
             CallStop)
  = [Stop 7%nat; Start 7%nat].
Proof.
  apply (start_reply_stop_cycle
    (new (Err:=string) (mkOptions None None None None) visible [])
    7%nat "blob:7" [Start 7%nat]
    ltac:(vm_compute; reflexivity) ltac:(vm_compute; reflexivity)
    ltac:(vm_compute; reflexivity) ltac:(left; vm_compute; reflexivity)
    ltac:(vm_compute; reflexivity)).
Defined.

Lemma reassigned_camera_is_not_stopped_witness :
  devices (step
    (run [VisibilityChange visible; RunDeferred; SetCamera (Some 8%nat);
          CameraReply (inr "blob:7")]
       (mkWorld (Err:=string) None (Some 7%nat) 1 5000 false false ""
          (mkFsm inactive None) hidden [Inactive] 0 0 [] []))
    CallStop)
  = [Stop 8%nat; Start 7%nat].
Proof.
  pose proof (reassigned_camera_is_not_stopped
    (mkWorld (Err:=string) None (Some 7%nat) 1 5000 false false ""
       (mkFsm inactive None) hidden [Inactive] 0 0 [] [])
    7%nat (Some 8%nat) "blob:7" [Start 7%nat]
    ltac:(reflexivity) ltac:(reflexivity) ltac:(reflexivity)
    ltac:(reflexivity) ltac:(reflexivity)) as (_ & _ & _ & _ & _ & H).
  exact H.
Defined.

Lemma start_while_hidden_forgets_camera_witness :
  devices (run [VisibilityChange visible; RunDeferred]
             (step (new (Err:=string) (mkOptions None None None None) hidden [])
                   (CallStart (Some 7%nat))))
  = [].
Proof.
  pose proof (start_while_hidden_forgets_camera
    (new (Err:=string) (mkOptions None None None None) hidden [])
    7%nat
    ltac:(vm_compute; reflexivity) ltac:(vm_compute; reflexivity)
    ltac:(vm_compute; discriminate) ltac:(vm_compute; reflexivity)
    ltac:(vm_compute; reflexivity)) as (_ & _ & _ & H & _).
  exact H.
Defined.

End ScannerOwnershipFacts.
